(** * IFC type extraction over a Speckle object graph

    A shallow embedding of [IFCExtractor.extract_ifc_types] and of the
    ranking used by [IFCExtractor.display_results] (src/ifc_extractor.py),
    together with the properties of the traversal and of the aggregation
    that the specification states. *)

From Stdlib Require Import ZArith Lia Ascii String.
From stdpp Require Import gmap strings list sorting.

Set Warnings "-register-all".
Open Scope string_scope.
Open Scope Z_scope.
Open Scope list_scope.

(** ** Python values and objects

    The received graph is a store of objects addressed by identity.  An
    attribute holds [None], a boolean, an integer, a string, a list of
    values, or a reference to an object.  Lists are kept by value: the
    traversal only ever reads them, and it never descends through a list
    nested in a list, so every cycle that matters runs through an object
    reference. *)

Definition loc := nat.

Inductive value :=
| VNone
| VBool (b : bool)
| VInt (z : Z)
| VStr (s : string)
| VList (items : list value)
| VRef (l : loc).

(** An object has the attributes stored on the instance, [__dict__], kept
    in insertion order as [dict.items()] yields them, and the attributes
    found on its class, which [getattr] and [hasattr] also see but
    [__dict__] does not list. *)
Record pyobj := PyObj {
  obj_class : list (string * value);
  obj_dict : list (string * value)
}.

(** The store.  A reference outside the store stands for a foreign object
    that exposes no [__dict__]. *)
Abbreviation heap := (gmap loc pyobj).

Fixpoint assoc (name : string) (d : list (string * value)) : option value :=
  match d with
  | [] => None
  | (k, v) :: d' => if String.eqb k name then Some v else assoc name d'
  end.

(** [getattr(o, name)]: the instance first, then the class. *)
Definition getattr (o : pyobj) (name : string) : option value :=
  match assoc name (obj_dict o) with
  | Some v => Some v
  | None => assoc name (obj_class o)
  end.

(** [getattr(o, name, default)] *)
Definition getattr_default (o : pyobj) (name : string) (default : value) : value :=
  match getattr o name with Some v => v | None => default end.

(** [hasattr(data, '__dict__')], giving the object when it holds. *)
Definition get_dict (h : heap) (data : value) : option pyobj :=
  match data with
  | VRef l => h !! l
  | _ => None
  end.

Definition has_dict (h : heap) (data : value) : bool :=
  match get_dict h data with Some _ => true | None => false end.

(** Truth value testing. *)
Definition truthy (v : value) : bool :=
  match v with
  | VNone => false
  | VBool b => b
  | VInt z => negb (z =? 0)
  | VStr s => negb (String.eqb s "")
  | VList items => match items with [] => false | _ => true end
  | VRef _ => true
  end.

Definition as_number (v : value) : option Z :=
  match v with
  | VBool b => Some (if b then 1 else 0)
  | VInt z => Some z
  | _ => None
  end.

(** [a == b]: booleans compare as the integers 0 and 1, lists
    element by element, objects by identity. *)
Fixpoint py_eq (a b : value) : bool :=
  match a, b with
  | VNone, VNone => true
  | VStr s, VStr t => String.eqb s t
  | VRef l, VRef m => Nat.eqb l m
  | VList xs, VList ys =>
      (fix all2 (xs ys : list value) : bool :=
         match xs, ys with
         | [], [] => true
         | x :: xs', y :: ys' => py_eq x y && all2 xs' ys'
         | _, _ => false
         end) xs ys
  | _, _ =>
      match as_number a, as_number b with
      | Some m, Some n => m =? n
      | _, _ => false
      end
  end.

(** A list cannot be a dictionary key. *)
Definition hashable (v : value) : bool :=
  match v with VList _ => false | _ => true end.

Definition chars (s : string) : list value :=
  map (fun c => VStr (String c EmptyString)) (list_ascii_of_string s).

(** What a [for] loop over [v] yields; [None] when [v] is not iterable. *)
Definition py_iter (v : value) : option (list value) :=
  match v with
  | VList items => Some items
  | VStr s => Some (chars s)
  | _ => None
  end.

(** [name.startswith('_')] *)
Definition startswith_underscore (name : string) : bool :=
  String.prefix "_" name.

(** ** Exceptions and outcomes *)

Inductive exn :=
| Unhashable      (* TypeError: unhashable type, raised by a dictionary *)
| NotIterable.    (* TypeError: object is not iterable, raised by a for loop *)

Inductive outcome (A : Type) :=
| Ok (a : A)
| Raise (e : exn)
| OutOfFuel.
Arguments Ok {A} a.
Arguments Raise {A} e.
Arguments OutOfFuel {A}.

Definition bind {A B} (m : outcome A) (k : A -> outcome B) : outcome B :=
  match m with
  | Ok a => k a
  | Raise e => Raise e
  | OutOfFuel => OutOfFuel
  end.

Notation "'try' x ':=' m 'in' k" := (bind m (fun x => k))
  (at level 10, x name, m at level 100, k at level 200).

(** A [for] loop that threads the state through its body. *)
Fixpoint for_each {A S} (body : A -> S -> outcome S) (xs : list A) (s : S)
  : outcome S :=
  match xs with
  | [] => Ok s
  | x :: xs' => try s' := body x s in for_each body xs' s'
  end.

(** ** The aggregation

    [ifc_types] is a dictionary from type to [{'count', 'instances'}]; its
    iteration order is the order in which the keys were first inserted. *)

Record instance_info := InstanceInfo {
  GlobalId : value;
  Name : value;
  ObjectType : value;
  Tag : value
}.

Record bucket := Bucket {
  count : Z;
  instances : list instance_info
}.

Definition agg := list (value * bucket).

Definition dict_contains (k : value) (d : agg) : bool :=
  existsb (fun kv => py_eq (fst kv) k) d.

Fixpoint dict_get (k : value) (d : agg) : option bucket :=
  match d with
  | [] => None
  | (k', b) :: d' => if py_eq k' k then Some b else dict_get k d'
  end.

(** [d[k] = b] for a key that is not in [d]. *)
Definition dict_add (k : value) (b : bucket) (d : agg) : agg := d ++ [(k, b)].

(** An update in place of the bucket stored under [k]. *)
Fixpoint dict_alter (f : bucket -> bucket) (k : value) (d : agg) : agg :=
  match d with
  | [] => []
  | (k', b) :: d' =>
      if py_eq k' k then (k', f b) :: d' else (k', b) :: dict_alter f k d'
  end.

Definition MESH : string := "Objects.Geometry.Mesh".
Definition Unknown : value := VStr "Unknown".

Definition make_instance_info (o : pyobj) : instance_info :=
  {| GlobalId := getattr_default o "GlobalId" Unknown;
     Name := getattr_default o "Name" Unknown;
     ObjectType := getattr_default o "ObjectType" Unknown;
     Tag := getattr_default o "Tag" Unknown |}.

Definition incr_count (b : bucket) : bucket :=
  {| count := count b + 1; instances := instances b |}.

Definition append_instance (info : instance_info) (b : bucket) : bucket :=
  {| count := count b; instances := instances b ++ [info] |}.

(** The aggregation of one IFC object (lines 154 to 169). *)
Definition record_instance (o : pyobj) (ifc_type : value) (ifc_types : agg)
  : outcome agg :=
  if hashable ifc_type then
    let ifc_types :=
      if negb (dict_contains ifc_type ifc_types)
      then dict_add ifc_type {| count := 0; instances := [] |} ifc_types
      else ifc_types in
    let ifc_types := dict_alter incr_count ifc_type ifc_types in
    let instance_info := make_instance_info o in
    Ok (dict_alter (append_instance instance_info) ifc_type ifc_types)
  else Raise Unhashable.

(** The node's type, when the node is an IFC object that is counted:
    [speckle_type] is there, is true, and is not the geometry mesh. *)
Definition ifc_type_of (o : pyobj) : option value :=
  match getattr o "speckle_type" with
  | Some ifc_type =>
      if truthy ifc_type && negb (py_eq ifc_type (VStr MESH))
      then Some ifc_type else None
  | None => None
  end.

(** The classification step (lines 149 to 169). *)
Definition classify (o : pyobj) (ifc_types : agg) : outcome agg :=
  match ifc_type_of o with
  | Some ifc_type => record_instance o ifc_type ifc_types
  | None => Ok ifc_types
  end.

(** ** The traversal *)

Section Traversal.
Variable h : heap.

Section Body.
    (** The recursive call [self.extract_ifc_types(x, ifc_types, max_depth,
        current_depth + 1)], as a function of [x] and of the dictionary. *)
Context {S : Type}.
Variable recurse : value -> S -> outcome S.

    (** Recursively analyze elements (lines 172 to 174). *)
Definition analyze_elements (o : pyobj) (ifc_types : S) : outcome S :=
      match getattr o "elements" with
      | Some elements =>
          if truthy elements then
            match py_iter elements with
            | Some items => for_each recurse items ifc_types
            | None => Raise NotIterable
            end
          else Ok ifc_types
      | None => Ok ifc_types
      end.

    (** The items of one list that are descended into (lines 179 to 181). *)
Definition visit_items (items : list value) (ifc_types : S) : outcome S :=
      for_each (fun item a => if has_dict h item then recurse item a else Ok a)
        items ifc_types.

    (** Check other potential collections (lines 177 to 181). *)
Definition check_other_collections (o : pyobj) (ifc_types : S)
      : outcome S :=
      for_each (fun '(attr_name, attr_value) a =>
        match attr_value with
        | VList items =>
            if negb (startswith_underscore attr_name)
            then visit_items items a
            else Ok a
        | _ => Ok a
        end) (obj_dict o) ifc_types.

End Body.

Section Extract.
Variable recurse : value -> agg -> outcome agg.

    (** Lines 147 to 183, for a call that is within the depth bound. *)
Definition extract_body (data : value) (ifc_types : agg) : outcome agg :=
      match get_dict h data with
      | Some o =>
          try ifc_types := classify o ifc_types in
          try ifc_types := analyze_elements recurse o ifc_types in
          check_other_collections recurse o ifc_types
      | None => Ok ifc_types
      end.
End Extract.

  (** [fuel] counts the levels still to be entered; [extract_ifc_types]
      below supplies [max_depth - current_depth + 1] of them. *)
Fixpoint extract_rec (fuel : nat) (data : value) (ifc_types : option agg)
      (max_depth current_depth : Z) : outcome agg :=
    let ifc_types := match ifc_types with Some a => a | None => [] end in
    if max_depth <? current_depth then Ok ifc_types else
    match fuel with
    | O => OutOfFuel
    | S fuel' =>
        extract_body
          (fun x a => extract_rec fuel' x (Some a) max_depth (current_depth + 1))
          data ifc_types
    end.

Definition extract_ifc_types (data : value) (ifc_types : option agg)
      (max_depth current_depth : Z) : outcome agg :=
    extract_rec (Z.to_nat (max_depth - current_depth + 1))
      data ifc_types max_depth current_depth.

End Traversal.

Definition default_max_depth : Z := 10.

(** The call made by [run]: [self.extract_ifc_types(self.received_data)]. *)
Definition extract_ifc_types_default (h : heap) (data : value) : outcome agg :=
  extract_ifc_types h data None default_max_depth 0.

(** ** The scenario of the specification *)

Module Scenario.
Definition nodeA : pyobj :=
    PyObj [] [("speckle_type", VStr "Wall"); ("GlobalId", VStr "g1")].
Definition mesh : pyobj :=
    PyObj [] [("speckle_type", VStr MESH)].
Definition nodeC : pyobj :=
    PyObj [] [("speckle_type", VStr "Wall"); ("GlobalId", VStr "g3")].
Definition nodeB : pyobj :=
    PyObj [] [("speckle_type", VStr "Door"); ("GlobalId", VStr "g2");
              ("elements", VList [VRef 4%nat])].
Definition root : pyobj :=
    PyObj [] [("elements", VList [VRef 1%nat; VRef 2%nat; VRef 3%nat])].

Definition graph : heap :=
    list_to_map [(0%nat, root); (1%nat, nodeA); (2%nat, mesh);
                 (3%nat, nodeB); (4%nat, nodeC)].
End Scenario.

(** ** The objects a traversal enters

    The same walk, recording the identity of every object it enters
    instead of aggregating it.  It shares [analyze_elements] and
    [check_other_collections] with the extraction, so the two descend
    alike; [extract_tour] below relates their results. *)

Section Tour.
Variable h : heap.

Definition tour_body (recurse : value -> list loc -> outcome (list loc))
      (data : value) (seen : list loc) : outcome (list loc) :=
    match get_dict h data, data with
    | Some o, VRef l =>
        try seen := Ok (seen ++ [l]) in
        try seen := analyze_elements recurse o seen in
        check_other_collections h recurse o seen
    | _, _ => Ok seen
    end.

Fixpoint tour_rec (fuel : nat) (data : value) (seen : list loc)
      (max_depth current_depth : Z) : outcome (list loc) :=
    if max_depth <? current_depth then Ok seen else
    match fuel with
    | O => OutOfFuel
    | S fuel' =>
        tour_body
          (fun x t => tour_rec fuel' x t max_depth (current_depth + 1))
          data seen
    end.

Definition tour (data : value) (max_depth current_depth : Z)
    : outcome (list loc) :=
    tour_rec (Z.to_nat (max_depth - current_depth + 1))
      data [] max_depth current_depth.

  (** The classification step applied to the object at [l]. *)
Definition classify_at (l : loc) (ifc_types : agg) : outcome agg :=
    match h !! l with
    | Some o => classify o ifc_types
    | None => Ok ifc_types
    end.

  (** The aggregation of a sequence of objects, in order. *)
Definition aggregate (ls : list loc) (ifc_types : agg) : outcome agg :=
    for_each classify_at ls ifc_types.

  (** The object at [l] is counted by the classification step. *)
Definition classifiable (l : loc) : bool :=
    match h !! l with
    | Some o => match ifc_type_of o with Some _ => true | None => false end
    | None => false
    end.

  (** [c] is a value that the traversal of [o] calls itself on and that
      names an object: an item of [o.elements], or an item of a list held
      by an attribute of [o.__dict__] whose name has no leading underscore. *)
Definition child (o : pyobj) (c : value) : Prop :=
    (exists elements items,
        getattr o "elements" = Some elements /\ truthy elements = true /\
        py_iter elements = Some items /\ In c items) \/
    (exists attr_name items,
        In (attr_name, VList items) (obj_dict o) /\
        startswith_underscore attr_name = false /\ In c items).

  (** [reach k data l]: the object [l] is [k] recursive calls below [data]. *)
Inductive reach : nat -> value -> loc -> Prop :=
  | reach_here l o :
      h !! l = Some o -> reach O (VRef l) l
  | reach_step k l o c l' :
      h !! l = Some o -> child o c -> reach k c l' -> reach (S k) (VRef l) l'.
End Tour.

(** ** The minimal node shape

    The discriminator is absent, [None] or a string, and [elements] is
    absent, [None] or a list. *)

Definition type_shaped (o : pyobj) : bool :=
  match getattr o "speckle_type" with
  | None | Some VNone | Some (VStr _) => true
  | _ => false
  end.

Definition elements_shaped (o : pyobj) : bool :=
  match getattr o "elements" with
  | None | Some VNone | Some (VList _) => true
  | _ => false
  end.

Definition shaped (o : pyobj) : bool := type_shaped o && elements_shaped o.

Definition well_shaped (h : heap) : Prop :=
  forall l o, h !! l = Some o -> shaped o = true.

(** ** Ranking (line 223)

    [sorted] is stable.  With [reverse=True] the list is reversed, sorted
    in ascending order of the key and reversed again, which keeps items of
    equal key in the order they had. *)

Fixpoint insert_by {A} (key : A -> Z) (x : A) (l : list A) : list A :=
  match l with
  | [] => [x]
  | y :: l' => if key y <? key x then y :: insert_by key x l' else x :: l
  end.

Fixpoint sort_by {A} (key : A -> Z) (l : list A) : list A :=
  match l with
  | [] => []
  | x :: l' => insert_by key x (sort_by key l')
  end.

Definition py_sorted {A} (l : list A) (key : A -> Z) (reverse : bool) : list A :=
  if reverse then rev (sort_by key (rev l)) else sort_by key l.

(** [sorted(ifc_types.items(), key=lambda x: x[1]['count'], reverse=True)],
    the ranking of the buckets. *)
Definition sorted_types (ifc_types : agg) : list (value * bucket) :=
  py_sorted ifc_types (fun x => count (snd x)) true.

(** ** Calls by reference

    [ifc_types] is passed and returned by reference.  [dicts] holds the
    dictionaries that are alive, each at its address.  A call without
    [ifc_types] makes a new dictionary ([ifc_types = {}], line 142), lets
    the traversal fill it and returns its address; the dictionaries that
    were there are not touched. *)

Abbreviation dicts := (list agg).

Definition call_extract_ifc_types (h : heap) (data : value) (max_depth : Z)
    (alive : dicts) : outcome (nat * dicts) :=
  try a := extract_ifc_types h data None max_depth 0 in
  Ok (length alive, alive ++ [a]).

(** Two calls, one after the other, on the same graph. *)
Definition call_twice (h : heap) (data : value) (max_depth : Z)
    (alive : dicts) : outcome (nat * nat * dicts) :=
  try first := call_extract_ifc_types h data max_depth alive in
  try second := call_extract_ifc_types h data max_depth (snd first) in
  Ok (fst first, fst second, snd second).

(** ** How a run can stop short of a result *)

Inductive stop :=
| Raised (e : exn)
| Starved.

Definition stopped {A} (m : outcome A) : option stop :=
  match m with
  | Ok _ => None
  | Raise e => Some (Raised e)
  | OutOfFuel => Some Starved
  end.

Definition never {A} (w : stop) (m : outcome A) : Prop := stopped m <> Some w.

(** ** Notions used by the properties *)

(** [count == len(instances)] in every bucket. *)
Definition consistent (ifc_types : agg) : Prop :=
  Forall (fun kv => count (snd kv) = Z.of_nat (length (instances (snd kv))))
    ifc_types.

(** The items that the loop over [__dict__] descends into, in order. *)
Definition secondary_items (h : heap) (o : pyobj) : list value :=
  flat_map (fun '(attr_name, attr_value) =>
    match attr_value with
    | VList items =>
        if negb (startswith_underscore attr_name)
        then List.filter (fun item => has_dict h item) items
        else []
    | _ => []
    end) (obj_dict o).


(** The attributes that the traversal reads by name. *)
Definition read_by_name (name : string) : bool :=
  existsb (String.eqb name)
    ["speckle_type"; "elements"; "GlobalId"; "Name"; "ObjectType"; "Tag"].

(** [o] without the entries of [__dict__] that are neither read by name
    nor a list under a name with no leading underscore. *)
Definition prune (o : pyobj) : pyobj :=
  {| obj_class := obj_class o;
     obj_dict :=
       List.filter (fun '(attr_name, attr_value) =>
                 read_by_name attr_name ||
                 (negb (startswith_underscore attr_name) &&
                  match attr_value with VList _ => true | _ => false end))
              (obj_dict o) |}.

(** The bucket of a type before the first object of the type is seen. *)
Definition fresh_bucket : bucket := {| count := 0; instances := [] |}.

(** [g] follows [f]: from related states, when [f] succeeds so does [g],
    and the states they reach are related. *)
Definition follows {S1 S2 A} (R : S1 -> S2 -> Prop)
    (f : A -> S1 -> outcome S1) (g : A -> S2 -> outcome S2) (x : A) : Prop :=
  forall s1 s2 s1', R s1 s2 -> f x s1 = Ok s1' ->
    exists s2', g x s2 = Ok s2' /\ R s1' s2'.

(** The dictionary [a] holds the aggregation, from [a0], of what the
    tour [t] has entered since [t0]. *)
Definition tracks (h : heap) (a0 : agg) (t0 : list loc) (a : agg)
    (t : list loc) : Prop :=
  exists u, t = t0 ++ u /\ aggregate h u a0 = Ok a.

(** The iteration at [x] adds to the list the [l] with [Q x l], and only
    those. *)
Definition adds {A} (Q : A -> loc -> Prop)
    (f : A -> list loc -> outcome (list loc)) (x : A) : Prop :=
  forall t t', f x t = Ok t' -> forall l, In l t' <-> In l t \/ Q x l.

(** [v] is the attribute [name] of [o] when [o] has it, and ["Unknown"]
    when it has not. *)
Definition attribute_or_unknown (o : pyobj) (name : string) (v : value) : Prop :=
  match getattr o name with
  | Some w => v = w
  | None => v = VStr "Unknown"
  end.

(** The graph has nodes whose discriminator is absent, [None] or a string. *)
Definition well_typed (h : heap) : Prop :=
  forall l o, h !! l = Some o -> type_shaped o = true.

(** Descending order of the count: the count of a bucket is at least the
    count of every bucket after it. *)
Definition descending (l : list (value * bucket)) : Prop :=
  StronglySorted (fun x y => count (snd y) <= count (snd x)) l.

(** The buckets of [l] whose count is [c], in the order of [l]. *)
Definition with_count (c : Z) (l : list (value * bucket)) : list (value * bucket) :=
  List.filter (fun x => count (snd x) =? c) l.

(** ** Sample graphs *)

Module Samples.
Definition sample (g : string) : instance_info :=
  {| GlobalId := VStr g; Name := Unknown; ObjectType := Unknown; Tag := Unknown |}.

(** What the specification expects of the scenario. *)
Definition expected : agg :=
  [(VStr "Wall", {| count := 2; instances := [sample "g1"; sample "g3"] |});
   (VStr "Door", {| count := 1; instances := [sample "g2"] |})].

(** What the traversal returns on it. *)
Definition returned : agg :=
  [(VStr "Wall",
    {| count := 6;
       instances := [sample "g1"; sample "g3"; sample "g3";
                     sample "g1"; sample "g3"; sample "g3"] |});
   (VStr "Door", {| count := 2; instances := [sample "g2"; sample "g2"] |})].

(** What the traversal returns on it with [max_depth = 1]. *)
Definition within_one : agg :=
  [(VStr "Wall", {| count := 2; instances := [sample "g1"; sample "g1"] |});
   (VStr "Door", {| count := 2; instances := [sample "g2"; sample "g2"] |})].

(** The scenario with [elements] held by the class of each node, out of
    [__dict__]. *)
Definition on_class (o : pyobj) : pyobj :=
  {| obj_class :=
       List.filter (fun nv => String.eqb (fst nv) "elements") (obj_dict o);
     obj_dict :=
       List.filter (fun nv => negb (String.eqb (fst nv) "elements")) (obj_dict o) |}.

Definition graph_on_class : heap := on_class <$> Scenario.graph.

(** A wall that lists itself among its elements. *)
Definition loop_wall : pyobj :=
  PyObj [] [("speckle_type", VStr "Wall"); ("GlobalId", VStr "w");
            ("elements", VList [VRef 0%nat])].
Definition cyclic : heap := {[ 0%nat := loop_wall ]}.

(** A mesh holding a door. *)
Definition mesh_parent : pyobj :=
  PyObj [("speckle_type", VStr MESH)] [("elements", VList [VRef 1%nat])].
Definition door : pyobj :=
  PyObj [("speckle_type", VStr "Door")] [("Name", VStr "front")].
Definition mesh_graph : heap :=
  list_to_map [(0%nat, mesh_parent); (1%nat, door)].

(** A node with a private list, a single object and a list of mixed items. *)
Definition mixed : pyobj :=
  PyObj [("speckle_type", VStr "Site")]
        [("_cache", VList [VRef 1%nat]); ("parent", VRef 1%nat);
         ("notes", VList [VStr "n"; VInt 3; VRef 2%nat])].
Definition window : pyobj :=
  PyObj [("speckle_type", VStr "Window")] [("Tag", VStr "t")].
Definition mixed_graph : heap :=
  list_to_map [(0%nat, mixed); (1%nat, door); (2%nat, window)].

(** A node whose type is a list. *)
Definition odd : pyobj := PyObj [] [("speckle_type", VList [VStr "Wall"])].
Definition odd_graph : heap := {[ 0%nat := odd ]}.
End Samples.

(** ** Reporting (lines 198 to 206 and 217 to 241)

    What [display_results] prints, line by line, kept as the values that go
    into each line rather than as text. *)

(** [enumerate(l, start)] *)
Fixpoint enumerate {A} (start : nat) (l : list A) : list (nat * A) :=
  match l with
  | [] => []
  | x :: l' => (start, x) :: enumerate (S start) l'
  end.

(** A line ["{j+1}. {GlobalId} - {Name} ({ObjectType})"]. *)
Record sample_line := SampleLine {
  sample_no : nat;
  sample_GlobalId : value;
  sample_Name : value;
  sample_ObjectType : value
}.

(** The lines of one type: its rank, its name, its count, the first five
    instances, and the number of the others when there are more than five. *)
Record type_lines := TypeLines {
  type_no : nat;
  type_name : value;
  type_count : Z;
  type_samples : list sample_line;
  type_more : option Z
}.

Record listing := Listing {
  heading_total : nat;
  listed : list type_lines;
  summary_types : nat;
  summary_instances : Z
}.

(** [sum(info['count'] for info in ifc_types.values())] (line 238). *)
Definition total_instances (ifc_types : agg) : Z :=
  fold_left (fun acc kv => acc + count (snd kv)) ifc_types 0.

Definition lines_of_type (i : nat) (ifc_type : value) (info : bucket)
  : type_lines :=
  {| type_no := i;
     type_name := ifc_type;
     type_count := count info;
     type_samples :=
       map (fun '(j, instance) =>
              {| sample_no := (j + 1)%nat;
                 sample_GlobalId := GlobalId instance;
                 sample_Name := Name instance;
                 sample_ObjectType := ObjectType instance |})
           (enumerate 0 (firstn 5 (instances info)));
     type_more :=
       if (5 <? length (instances info))%nat
       then Some (Z.of_nat (length (instances info)) - 5)
       else None |}.

Definition display_results (ifc_types : agg) : listing :=
  {| heading_total := length ifc_types;
     listed :=
       map (fun '(i, (ifc_type, info)) => lines_of_type i ifc_type info)
           (enumerate 1 (sorted_types ifc_types));
     summary_types := length ifc_types;
     summary_instances := total_instances ifc_types |}.

(** [run] from the point where the data has been received (lines 198 to
    206): the dictionary when it is not empty, [None] when it is empty or
    when the traversal raised, which [run] catches (line 211). *)
Definition run_received (h : heap) (received_data : value) : option agg :=
  match extract_ifc_types_default h received_data with
  | Ok ifc_types =>
      match ifc_types with
      | [] => None
      | _ => Some ifc_types
      end
  | _ => None
  end.

(** ** Export (lines 243 to 259)

    The rows handed to [writer.writerow], in order. *)

Definition csv_header : list value :=
  [VStr "IFC_Type"; VStr "GlobalId"; VStr "Name"; VStr "ObjectType"; VStr "Tag"].

Definition csv_row (ifc_type : value) (instance : instance_info) : list value :=
  [ifc_type; GlobalId instance; Name instance; ObjectType instance; Tag instance].

Definition export_to_csv (ifc_types : agg) : list (list value) :=
  csv_header ::
  flat_map (fun '(ifc_type, info) => map (csv_row ifc_type) (instances info))
    ifc_types.

(** ** Locators (lines 37 to 50 and 63 to 70)

    Text is a list of characters.  The three patterns are matched as [re]
    matches them: [match] at the start of the text, [search] at the
    leftmost place where the pattern matches, a run [[a-f0-9]+] or
    [[^/]+] as long as it can be.  No shorter run can match in these
    patterns: what follows a run is the end of the pattern, or a [/] that
    a character of the run cannot be. *)

Abbreviation text := (list ascii).

Definition lit (s : string) : text := list_ascii_of_string s.

(** [[a-f0-9]] *)
Definition is_hex (c : ascii) : bool :=
  let n := nat_of_ascii c in
  ((48 <=? n) && (n <=? 57) || (97 <=? n) && (n <=? 102))%nat.

Definition is_slash (c : ascii) : bool := Ascii.eqb c "/".

(** The longest run of characters of the class at the start of [s], and
    what follows it. *)
Fixpoint span (p : ascii -> bool) (s : text) : text * text :=
  match s with
  | [] => ([], [])
  | c :: s' =>
      if p c then let '(run, rest) := span p s' in (c :: run, rest)
      else ([], s)
  end.

(** [s] without the literal [p] at its start. *)
Fixpoint strip_prefix (p s : text) : option text :=
  match p, s with
  | [], _ => Some s
  | a :: p', b :: s' => if Ascii.eqb a b then strip_prefix p' s' else None
  | _ :: _, [] => None
  end.

(** [s.rstrip('/')] *)
Fixpoint rstrip_slash (s : text) : text :=
  match s with
  | [] => []
  | c :: s' =>
      match rstrip_slash s' with
      | [] => if is_slash c then [] else [c]
      | r => c :: r
      end
  end.

(** [([a-f0-9]+)] at the start of [s]: the group and what follows. *)
Definition hex_run (s : text) : option (text * text) :=
  match span is_hex s with
  | ([], _) => None
  | (run, rest) => Some (run, rest)
  end.

(** [re.search(pattern, s)] for a pattern that [here] matches at the start
    of a text. *)
Fixpoint re_search {A} (here : text -> option A) (s : text) : option A :=
  match here s with
  | Some x => Some x
  | None =>
      match s with
      | [] => None
      | _ :: s' => re_search here s'
      end
  end.

(** [://[^/]+] after the scheme: the whole match. *)
Definition host_after (scheme rest : text) : option text :=
  match strip_prefix (lit "://") rest with
  | Some r =>
      match span (fun c => negb (is_slash c)) r with
      | ([], _) => None
      | (host, _) => Some (scheme ++ lit "://" ++ host)
      end
  | None => None
  end.

(** [re.match(r'(https?://[^/]+)', url)], group 1: first with the [s],
    then without it. *)
Definition match_server (url : text) : option text :=
  match strip_prefix (lit "http") url with
  | Some rest =>
      match
        match rest with
        | c :: rest' =>
            if Ascii.eqb c "s" then host_after (lit "https") rest' else None
        | [] => None
        end
      with
      | Some server => Some server
      | None => host_after (lit "http") rest
      end
  | None => None
  end.

(** [/projects/([a-f0-9]+)/models/([a-f0-9]+)] at the start of [s]. *)
Definition project_model_here (s : text) : option (text * text) :=
  match strip_prefix (lit "/projects/") s with
  | Some r1 =>
      match hex_run r1 with
      | Some (project_id, r2) =>
          match strip_prefix (lit "/models/") r2 with
          | Some r3 =>
              match hex_run r3 with
              | Some (model_id, _) => Some (project_id, model_id)
              | None => None
              end
          | None => None
          end
      | None => None
      end
  | None => None
  end.

(** [marker([a-f0-9]+)] at the start of [s], for [/streams/] and
    [/commits/]. *)
Definition id_here (marker : text) (s : text) : option text :=
  match strip_prefix marker s with
  | Some r =>
      match hex_run r with
      | Some (id, _) => Some id
      | None => None
      end
  | None => None
  end.

Inductive locator_error :=
| AttributeError   (* line 40: [re.match] gave [None] *)
| ValueError       (* lines 50 and 55; [response.json()] on what is no JSON *)
| TypeError        (* line 67: [re.search] on what is not a string *)
| KeyError         (* line 99: no such key *)
| ServiceError.    (* raised by the server, the network or the library *)

(** [parse_url]: [(server, project_id, model_id)]. *)
Definition parse_url (url : text)
  : locator_error + (text * option text * text) :=
  let url := rstrip_slash url in
  match match_server url with
  | None => inl AttributeError
  | Some server =>
      match re_search project_model_here url with
      | Some (project_id, model_id) => inr (server, Some project_id, model_id)
      | None =>
          match re_search (id_here (lit "/streams/")) url with
          | Some stream_id => inr (server, None, stream_id)
          | None => inl ValueError
          end
      end
  end.


(** [get_commit_id_from_preview_url]: the identifier, or [None]. *)
Definition get_commit_id_from_preview_url (model_data : pyobj)
  : locator_error + option text :=
  let preview_url := getattr_default model_data "preview_url" (VStr "") in
  if truthy preview_url then
    match preview_url with
    | VStr s => inr (re_search (id_here (lit "/commits/")) (lit s))
    | _ => inl TypeError
    end
  else inr None.

(** ** Retrieval (lines 30 to 35, 52 to 61, 72 to 137 and 185 to 215)

    The server, the network and the [specklepy] library are the
    [services]: each gives a value or raises.  The objects that the
    library hands out live in a store of their own. *)

(** JSON as [response.json()] gives it. *)
Inductive json :=
| JNull
| JBool (b : bool)
| JNum (z : Z)
| JStr (s : string)
| JList (items : list json)
| JObj (fields : list (string * json)).

Fixpoint jassoc (k : string) (fields : list (string * json)) : option json :=
  match fields with
  | [] => None
  | (k', v) :: fields' => if String.eqb k' k then Some v else jassoc k fields'
  end.

Definition json_truthy (j : json) : bool :=
  match j with
  | JNull => false
  | JBool b => b
  | JNum z => negb (z =? 0)
  | JStr s => negb (String.eqb s "")
  | JList items => match items with [] => false | _ => true end
  | JObj fields => match fields with [] => false | _ => true end
  end.

(** [k in j]: a key of a dictionary, an item of a list, a part of a
    string; anything else is not a container. *)
Definition json_contains (k : string) (j : json) : locator_error + bool :=
  match j with
  | JObj fields => inr (match jassoc k fields with Some _ => true | None => false end)
  | JList items =>
      inr (existsb (fun x => match x with JStr s => String.eqb s k | _ => false end)
             items)
  | JStr s => inr (match String.index 0 k s with Some _ => true | None => false end)
  | _ => inl TypeError
  end.

(** [j[k]] for a string [k]. *)
Definition json_subscript (j : json) (k : string) : locator_error + json :=
  match j with
  | JObj fields =>
      match jassoc k fields with
      | Some v => inr v
      | None => inl KeyError
      end
  | _ => inl TypeError
  end.

(** What [requests.post] gives: the status and the body, [None] when the
    body is no JSON. *)
Record response := Response {
  status_code : Z;
  body : option json
}.

(** What iterating [project.models] yields: a pair, or anything else. *)
Inductive element :=
| Pair (key val : value)
| NotPair (v : value).

(** A client is known by the host it was made for; [self.client] is
    [None] until [authenticate] makes one. *)
Record services := Services {
  (** the store of the objects of the library *)
  library : heap;
  (** [SpeckleClient(host=server)] *)
  speckle_client : text -> locator_error + unit;
  (** [client.authenticate_with_token(token)], for the client of a host *)
  authenticate_with_token : text -> text -> locator_error + unit;
  (** [ServerTransport(client=..., stream_id=...)], for [self.client] as
      it is, [None] or a client *)
  server_transport : option text -> text -> locator_error + unit;
  (** [list(project.models)] for the project that [get_with_models] gives
      the client of a host, [None] when the project has no [models] or a
      false one *)
  get_with_models : text -> text -> locator_error + option (list element);
  (** [requests.post] of the query for a stream and a commit, with the
      token of the extractor *)
  post : option text -> text -> text -> locator_error + response;
  (** [receive(obj_id=..., remote_transport=transport)], for the transport
      made from a client and a stream: the store of the received graph and
      its root *)
  receive : json -> option text -> text -> locator_error + (heap * value)
}.

(** The attributes of the extractor (lines 32 to 35). *)
Record extractor := Extractor {
  url : text;
  token : option text;
  client : option text;
  received_data : option (heap * value)
}.

(** [__init__]: [token or os.getenv('SPECKLE_TOKEN')]; no client yet. *)
Definition init (url : text) (token getenv : option text) : extractor :=
  {| url := url;
     token := match token with
              | Some (c :: t) => Some (c :: t)
              | _ => getenv
              end;
     client := None;
     received_data := None |}.

(** A method gives the extractor as it leaves it, and a value or the
    exception it raises. *)
Definition authenticate (sv : services) (self : extractor)
  : extractor * (locator_error + (text * option text * text)) :=
  match token self with
  | Some (c :: t) =>
      match parse_url (url self) with
      | inr (server, project_id, model_id) =>
          match speckle_client sv server with
          | inr _ =>
              let self' := {| url := url self;
                              token := token self;
                              client := Some server;
                              received_data := received_data self |} in
              match authenticate_with_token sv server (c :: t) with
              | inr _ => (self', inr (server, project_id, model_id))
              | inl e => (self', inl e)
              end
          | inl e => (self, inl e)
          end
      | inl e => (self, inl e)
      end
  | _ => (self, inl ValueError)
  end.

(** Lines 93 to 101, on the response; [JNull] is [None], whether it comes
    from the body or from line 101. *)
Definition referenced_object (r : response) : locator_error + json :=
  if status_code r =? 200 then
    match body r with
    | None => inl ValueError
    | Some data =>
        match json_contains "data" data with
        | inl e => inl e
        | inr false => inr JNull
        | inr true =>
        match json_subscript data "data" with
        | inl e => inl e
        | inr d =>
        if negb (json_truthy d) then inr JNull else
        match json_contains "stream" d with
        | inl e => inl e
        | inr false => inr JNull
        | inr true =>
        match json_subscript d "stream" with
        | inl e => inl e
        | inr stream_data =>
        if negb (json_truthy stream_data) then inr JNull else
        match json_contains "commit" stream_data with
        | inl e => inl e
        | inr false => inr JNull
        | inr true =>
        match json_subscript stream_data "commit" with
        | inl e => inl e
        | inr commit_data =>
        if negb (json_truthy commit_data) then inr JNull else
        json_subscript commit_data "referencedObject"
        end end end end end end
    end
  else inr JNull.

Definition get_object_id_from_commit (sv : services) (self : extractor)
    (stream_id commit_id : text) : locator_error + json :=
  match post sv (token self) stream_id commit_id with
  | inl e => inl e
  | inr r => referenced_object r
  end.

(** [getattr(m, 'id', '') == model_id] *)
Definition has_id (w : heap) (model_id : text) (m : value) : bool :=
  py_eq (match get_dict w m with
         | Some o => getattr_default o "id" (VStr "")
         | None => VStr ""
         end)
        (VStr (string_of_list_ascii model_id)).

(** Lines 116 to 127: the first model with the identifier, in the first
    pair whose key is ['items'] and whose value is a list. *)
Fixpoint find_target_model (w : heap) (models : list element) (model_id : text)
  : option value :=
  match models with
  | [] => None
  | Pair key (VList items) :: models' =>
      if py_eq key (VStr "items")
      then find (has_id w model_id) items
      else find_target_model w models' model_id
  | _ :: models' => find_target_model w models' model_id
  end.

Definition receive_data (sv : services) (self : extractor)
  : extractor * (locator_error + bool) :=
  match parse_url (url self) with
  | inl e => (self, inl e)
  | inr (server, project_id, model_id) =>
      let stream_id :=
        match project_id with
        | Some (c :: p) => c :: p
        | _ => model_id
        end in
      match server_transport sv (client self) stream_id with
      | inl e => (self, inl e)
      | inr _ =>
      match project_id with
      | Some (c :: p) =>
          match
            match client self with
            | Some host => get_with_models sv host (c :: p)
            | None => inl AttributeError
            end
          with
          | inl e => (self, inl e)
          | inr models =>
              let target_model :=
                match models with
                | Some models => find_target_model (library sv) models model_id
                | None => None
                end in
              match target_model with
              | Some m =>
                  if truthy m then
                    match
                      match get_dict (library sv) m with
                      | Some o => get_commit_id_from_preview_url o
                      | None => inr None
                      end
                    with
                    | inl e => (self, inl e)
                    | inr (Some (c' :: commit_id)) =>
                        match get_object_id_from_commit sv self stream_id
                                (c' :: commit_id) with
                        | inl e => (self, inl e)
                        | inr object_id =>
                            if json_truthy object_id then
                              match receive sv object_id (client self) stream_id with
                              | inl e => (self, inl e)
                              | inr received =>
                                  ({| url := url self;
                                      token := token self;
                                      client := client self;
                                      received_data := Some received |},
                                   inr true)
                              end
                            else (self, inr false)
                        end
                    | inr _ => (self, inr false)
                    end
                  else (self, inr false)
              | None => (self, inr false)
              end
          end
      | _ => (self, inr false)
      end
      end
  end.

(** [run]: what it returns; an exception of any step is caught (line 211). *)
Definition run (sv : services) (self : extractor) : option agg :=
  match authenticate sv self with
  | (_, inl _) => None
  | (self1, inr _) =>
      match receive_data sv self1 with
      | (self2, inr true) =>
          match received_data self2 with
          | Some (h, data) => run_received h data
          | None => run_received ∅ VNone
          end
      | _ => None
      end
  end.

(** Services that hold the scenario and answer every request made
    through a client; a transport cannot be made without one. *)
Module Offline.
Definition services : services :=
  {| library := {[ 0%nat := PyObj [] [("id", VStr "672e2108a2");
                                      ("preview_url",
                                       VStr "https://x/preview/ab/commits/0c1d2e")] ]};
     speckle_client := fun _ => inr tt;
     authenticate_with_token := fun _ _ => inr tt;
     server_transport := fun client _ =>
       match client with Some _ => inr tt | None => inl ServiceError end;
     get_with_models := fun _ _ =>
       inr (Some [Pair (VStr "totalCount") (VInt 1);
                  Pair (VStr "items") (VList [VRef 0%nat])]);
     post := fun _ _ _ =>
       inr {| status_code := 200;
              body := Some (JObj [("data", JObj [("stream", JObj [("commit",
                       JObj [("referencedObject", JStr "f00d")])])])]) |};
     receive := fun _ _ _ => inr (Scenario.graph, VRef 0%nat) |}.

(** Four models, three of them with the identifier of the locator. *)
Definition catalogue : heap :=
  {[ 0%nat := PyObj [] [("id", VStr "5f0a1b2c3d"); ("name", VStr "site")];
     1%nat := PyObj [] [("id", VStr "672e2108a2"); ("name", VStr "first")];
     2%nat := PyObj [] [("id", VStr "672e2108a2"); ("name", VStr "second")];
     3%nat := PyObj [] [("id", VStr "672e2108a2"); ("name", VStr "later")] ]}.
End Offline.

(** A chain of [n + 1] walls, each the only element of the one before,
    with [elements] in [__dict__] as the library stores it. *)
Definition chain_node (n i : nat) : pyobj :=
  PyObj []
    (("speckle_type", VStr "Wall") ::
     if (i <? n)%nat then [("elements", VList [VRef (S i)])] else []).

Definition chain (n : nat) : heap :=
  map_seq 0 (map (chain_node n) (seq 0 (S n))).

(** ** Notions used by the further properties *)

(** A pair of [project.models] whose key is ['items'] and whose value is
    a list. *)
Definition is_items (e : element) : bool :=
  match e with
  | Pair key (VList _) => py_eq key (VStr "items")
  | _ => false
  end.

(** The value found by following the keys [ks] through dictionaries. *)
Fixpoint json_path (ks : list string) (j : json) : option json :=
  match ks with
  | [] => Some j
  | k :: ks' =>
      match j with
      | JObj fields =>
          match jassoc k fields with
          | Some v => json_path ks' v
          | None => None
          end
      | _ => None
      end
  end.

Definition keys (d : agg) : list value := map fst d.

(** No two keys of the dictionary are equal. *)
Fixpoint keys_distinct (ks : list value) : Prop :=
  match ks with
  | [] => True
  | k :: ks' => (forall k', In k' ks' -> py_eq k k' = false) /\ keys_distinct ks'
  end.

(** The types met so far, each where it was first met. *)
Definition note_type (seen : list value) (ifc_type : value) : list value :=
  if existsb (fun k => py_eq k ifc_type) seen then seen else seen ++ [ifc_type].

(** The types of the counted objects among [ls], in order. *)
Definition types_of (h : heap) (ls : list loc) : list value :=
  flat_map (fun l =>
    match h !! l with
    | Some o => match ifc_type_of o with Some ty => [ty] | None => [] end
    | None => []
    end) ls.

(** The row of the counted object at [l]. *)
Definition row_at (h : heap) (l : loc) : list value :=
  match h !! l with
  | Some o =>
      match ifc_type_of o with
      | Some ty => csv_row ty (make_instance_info o)
      | None => []
      end
  | None => []
  end.

(** The object at [l] is counted under the key [k]. *)
Definition has_type (h : heap) (k : value) (l : loc) : bool :=
  match h !! l with
  | Some o => match ifc_type_of o with Some ty => py_eq k ty | None => false end
  | None => false
  end.

(** The objects among [ls] that are counted under [k], in order. *)
Definition of_type (h : heap) (k : value) (ls : list loc) : list loc :=
  List.filter (has_type h k) ls.

(** The records of the objects [ls], in order. *)
Definition records (h : heap) (ls : list loc) : list instance_info :=
  flat_map (fun l =>
    match h !! l with Some o => [make_instance_info o] | None => [] end) ls.

(** The dictionary [a] is the aggregation of the objects [t]: its keys
    are distinct and hashable, each bucket holds the records of the objects
    of [t] counted under its key, in order, with their number as count, and
    the type of every counted object of [t] is a key. *)
Definition holds_visits (h : heap) (t : list loc) (a : agg) : Prop :=
  keys_distinct (keys a) /\
  Forall (fun k => hashable k = true) (keys a) /\
  (forall k b, In (k, b) a ->
     instances b = records h (of_type h k t) /\
     count b = Z.of_nat (length (of_type h k t))) /\
  (forall l o ty, In l t -> h !! l = Some o -> ifc_type_of o = Some ty ->
     dict_contains ty a = true).

(** [elements], when there and true, can be iterated. *)
Definition elements_iterable (o : pyobj) : bool :=
  match getattr o "elements" with
  | Some elements =>
      negb (truthy elements) ||
      match py_iter elements with Some _ => true | None => false end
  | None => true
  end.

(** The type, when the node is counted, can be a key. *)
Definition type_hashable (o : pyobj) : bool :=
  match ifc_type_of o with
  | Some ty => hashable ty
  | None => true
  end.

(** A node that the traversal can handle. *)
Definition node_ok (o : pyobj) : bool := elements_iterable o && type_hashable o.

(** Every object below [data] is less than [n] recursive calls away: the
    graph under [data] is a finite tree of height at most [n]. *)
Inductive shallow (h : heap) : nat -> value -> Prop :=
| shallow_leaf n data : get_dict h data = None -> shallow h n data
| shallow_node n data o :
    get_dict h data = Some o ->
    (forall c, child o c -> shallow h n c) ->
    shallow h (S n) data.

(** * Properties *)

(** ** Outcomes and loops *)

Lemma bind_Ok {A B} (m : outcome A) (k : A -> outcome B) b :
  bind m k = Ok b <-> exists a, m = Ok a /\ k a = Ok b.
Proof.
  split.
  - destruct m as [a| |]; simpl; intros E; try discriminate. eauto.
  - intros (a & -> & E). exact E.
Qed.

Lemma for_each_ext {A S} (f g : A -> S -> outcome S) xs :
  (forall x s, In x xs -> f x s = g x s) ->
  forall s, for_each f xs s = for_each g xs s.
Proof.
  induction xs as [|x xs IH]; intros E s; simpl; [reflexivity|].
  rewrite (E x s) by (left; reflexivity).
  destruct (g x s); simpl; try reflexivity.
  apply IH. intros y s' Hy. apply E. right; exact Hy.
Qed.

Lemma for_each_app {A S} (f : A -> S -> outcome S) xs ys s :
  for_each f (xs ++ ys) s = try s' := for_each f xs s in for_each f ys s'.
Proof.
  revert s; induction xs as [|x xs IH]; intros s; simpl; [reflexivity|].
  destruct (f x s); simpl; auto.
Qed.

(** A property of the state that every iteration keeps is kept by the loop. *)
Lemma for_each_invariant {A S} (P : S -> Prop) (f : A -> S -> outcome S) xs :
  (forall x s s', In x xs -> P s -> f x s = Ok s' -> P s') ->
  forall s s', P s -> for_each f xs s = Ok s' -> P s'.
Proof.
  induction xs as [|x xs IH]; intros Hf s s' Hs; simpl.
  - intros [= <-]. exact Hs.
  - intros E. apply bind_Ok in E as (s1 & E1 & E2).
    apply (IH (fun y t t' Hy => Hf y t t' (or_intror Hy)) s1 s'); [|exact E2].
    apply (Hf x s s1); [left; reflexivity|exact Hs|exact E1].
Qed.

(** A loop whose iterations all succeed succeeds. *)
Lemma for_each_total {A S} (f : A -> S -> outcome S) xs :
  (forall x s, In x xs -> exists s', f x s = Ok s') ->
  forall s, exists s', for_each f xs s = Ok s'.
Proof.
  induction xs as [|x xs IH]; intros Hf s; simpl; [eauto|].
  destruct (Hf x s) as (s1 & E1); [left; reflexivity|].
  rewrite E1; simpl. apply IH. intros y t Hy. apply Hf. right; exact Hy.
Qed.

(** ** The recursion and its fuel *)

Section Bodies.
Variable h : heap.

Lemma analyze_elements_ext {S} (r1 r2 : value -> S -> outcome S) o s :
    (forall x s, r1 x s = r2 x s) ->
    analyze_elements r1 o s = analyze_elements r2 o s.
Proof.
    intros E. unfold analyze_elements.
    destruct (getattr o "elements") as [els|]; [|reflexivity].
    destruct (truthy els); [|reflexivity].
    destruct (py_iter els); [|reflexivity].
    apply for_each_ext. intros; apply E.
Qed.

Lemma visit_items_ext {S} (r1 r2 : value -> S -> outcome S) items s :
    (forall x s, r1 x s = r2 x s) ->
    visit_items h r1 items s = visit_items h r2 items s.
Proof.
    intros E. unfold visit_items. apply for_each_ext.
    intros x t _. destruct (has_dict h x); [apply E|reflexivity].
Qed.

Lemma check_other_collections_ext {S} (r1 r2 : value -> S -> outcome S) o s :
    (forall x s, r1 x s = r2 x s) ->
    check_other_collections h r1 o s = check_other_collections h r2 o s.
Proof.
    intros E. unfold check_other_collections. apply for_each_ext.
    intros [name v] t _. destruct v; try reflexivity.
    destruct (negb (startswith_underscore name)); [|reflexivity].
    apply visit_items_ext, E.
Qed.

Lemma extract_body_ext (r1 r2 : value -> agg -> outcome agg) data a :
    (forall x s, r1 x s = r2 x s) ->
    extract_body h r1 data a = extract_body h r2 data a.
Proof.
    intros E. unfold extract_body.
    destruct (get_dict h data) as [o|]; [|reflexivity].
    destruct (classify o a) as [a1| |]; simpl; try reflexivity.
    rewrite (analyze_elements_ext r1 r2 o a1 E).
    destruct (analyze_elements r2 o a1) as [a2| |]; simpl; try reflexivity.
    apply check_other_collections_ext, E.
Qed.

  (** Every amount of fuel from [max_depth - current_depth + 1] on gives
      the same outcome. *)
Lemma extract_rec_fuel n m data a M d :
    (Z.to_nat (M - d + 1) <= n)%nat -> (Z.to_nat (M - d + 1) <= m)%nat ->
    extract_rec h n data a M d = extract_rec h m data a M d.
Proof.
    revert m data a d.
    induction n as [|n IH]; intros m data a d Hn Hm; simpl.
    - destruct (M <? d) eqn:E.
      + destruct m; simpl; rewrite E; reflexivity.
      + apply Z.ltb_ge in E. lia.
    - destruct (M <? d) eqn:E.
      + destruct m; simpl; rewrite E; reflexivity.
      + destruct m as [|m]; [apply Z.ltb_ge in E; lia|]. simpl. rewrite E.
        apply Z.ltb_ge in E. apply extract_body_ext. intros x s. apply IH; lia.
Qed.

  (** The equation of the source: a call either stops at the depth bound
      or runs its body, calling itself one level down. *)
Lemma extract_ifc_types_eq data a M d :
    extract_ifc_types h data a M d =
    let ifc_types := match a with Some a => a | None => [] end in
    if M <? d then Ok ifc_types
    else extract_body h
           (fun x a' => extract_ifc_types h x (Some a') M (d + 1))
           data ifc_types.
Proof.
    unfold extract_ifc_types.
    destruct (Z.to_nat (M - d + 1)) as [|n] eqn:En; simpl.
    - destruct (M <? d) eqn:E; [reflexivity|]. apply Z.ltb_ge in E. lia.
    - destruct (M <? d) eqn:E; [reflexivity|]. apply Z.ltb_ge in E.
      apply extract_body_ext. intros x s. apply extract_rec_fuel; lia.
Qed.
End Bodies.

(** ** The extraction aggregates the objects of the tour *)

Section Simulation.
Context {S1 S2 : Type} (R : S1 -> S2 -> Prop).
Variable h : heap.

Lemma for_each_follows {A} (f : A -> S1 -> outcome S1) g xs :
  (forall x, In x xs -> follows R f g x) ->
  follows R (for_each f) (for_each g) xs.
Proof.
  induction xs as [|x xs IH]; intros Hx s1 s2 s1' Hs; simpl.
  - intros [= <-]. eauto.
  - intros E. apply bind_Ok in E as (t1 & E1 & E2).
    destruct (Hx x (or_introl eq_refl) s1 s2 t1 Hs E1) as (t2 & -> & Ht).
    simpl. apply (IH (fun y Hy => Hx y (or_intror Hy)) t1 t2 s1' Ht E2).
Qed.

Variables (r1 : value -> S1 -> outcome S1) (r2 : value -> S2 -> outcome S2).
Hypothesis r12 : forall x, follows R r1 r2 x.

Lemma analyze_elements_follows :
  forall o, follows R (analyze_elements r1) (analyze_elements r2) o.
Proof.
  intros o s1 s2 s1' Hs. unfold analyze_elements.
  destruct (getattr o "elements") as [els|]; [|intros [= <-]; eauto].
  destruct (truthy els); [|intros [= <-]; eauto].
  destruct (py_iter els) as [items|]; [|discriminate].
  apply for_each_follows; [|exact Hs]. intros x _. apply r12.
Qed.

Lemma visit_items_follows :
  forall items, follows R (visit_items h r1) (visit_items h r2) items.
Proof.
  intros items. unfold visit_items. apply for_each_follows.
  intros x _ s1 s2 s1' Hs. destruct (has_dict h x).
  - apply r12, Hs.
  - intros [= <-]. eauto.
Qed.

Lemma check_other_collections_follows :
  forall o,
    follows R (check_other_collections h r1) (check_other_collections h r2) o.
Proof.
  intros o. unfold check_other_collections. apply for_each_follows.
  intros [name v] _ s1 s2 s1' Hs.
  destruct v; try (intros [= <-]; eauto).
  destruct (negb (startswith_underscore name)).
  - apply visit_items_follows, Hs.
  - intros [= <-]. eauto.
Qed.
End Simulation.

Section Tours.
Variable h : heap.

Lemma aggregate_app ls ms a :
  aggregate h (ls ++ ms) a = try a' := aggregate h ls a in aggregate h ms a'.
Proof. apply for_each_app. Qed.

Lemma extract_rec_tracks a0 t0 n M :
  forall d x,
    follows (tracks h a0 t0)
      (fun x a => extract_rec h n x (Some a) M d)
      (fun x t => tour_rec h n x t M d) x.
Proof.
  induction n as [|n IH]; intros d x a t a' Ht; simpl.
  - destruct (M <? d); [|discriminate]. intros [= <-]. eauto.
  - destruct (M <? d); [intros [= <-]; eauto|].
    unfold extract_body, tour_body.
    destruct (get_dict h x) as [o|] eqn:Ex; [|intros [= <-]; eauto].
    destruct x as [| | | | |l]; try discriminate.
    change (h !! l = Some o) in Ex.
    intros E. apply bind_Ok in E as (a1 & E1 & E).
    apply bind_Ok in E as (a2 & E2 & E3). simpl.
    assert (Ht1 : tracks h a0 t0 a1 (t ++ [l])).
    { destruct Ht as (u & -> & Hu). exists (u ++ [l]). split.
      - symmetry; apply app_assoc.
      - rewrite aggregate_app, Hu. simpl. unfold aggregate. simpl.
        unfold classify_at. rewrite Ex, E1. reflexivity. }
    destruct (analyze_elements_follows (tracks h a0 t0) _ _ (IH (d + 1)) o
                a1 (t ++ [l]) a2 Ht1 E2) as (t2 & -> & Ht2).
    simpl.
    exact (check_other_collections_follows (tracks h a0 t0) h _ _ (IH (d + 1)) o
             a2 t2 a' Ht2 E3).
Qed.

(** When the extraction returns, the tour does, and the dictionary the
    extraction returns is the aggregation of the tour. *)
Lemma extract_tour data a M d a' :
  extract_ifc_types h data a M d = Ok a' ->
  exists t, tour h data M d = Ok t /\
            aggregate h t (match a with Some a => a | None => [] end) = Ok a'.
Proof.
  unfold extract_ifc_types, tour. intros E.
  set (a0 := match a with Some a => a | None => [] end).
  assert (E' : extract_rec h (Z.to_nat (M - d + 1)) data (Some a0) M d = Ok a').
  { rewrite <- E. destruct a; [reflexivity|].
    destruct (Z.to_nat (M - d + 1)); reflexivity. }
  destruct (extract_rec_tracks a0 [] (Z.to_nat (M - d + 1)) M d data a0 [] a')
    as (t & Et & u & -> & Hu).
  - exists []. split; reflexivity.
  - exact E'.
  - exists u. split; [exact Et|exact Hu].
Qed.
End Tours.

(** ** The tour enters the objects within the depth bound *)

Section Members.
Variable h : heap.

Lemma for_each_adds {A} (Q : A -> loc -> Prop) f xs :
  (forall x, In x xs -> adds Q f x) ->
  adds (fun xs l => exists x, In x xs /\ Q x l) (for_each f) xs.
Proof.
  induction xs as [|x xs IH]; intros Hx t t'; simpl.
  - intros [= <-] l. split; [tauto|]. intros [H|(x & [] & _)]; exact H.
  - intros E l. apply bind_Ok in E as (t1 & E1 & E2).
    rewrite (IH (fun y Hy => Hx y (or_intror Hy)) t1 t' E2 l).
    rewrite (Hx x (or_introl eq_refl) t t1 E1 l).
    split.
    + intros [[H|H]|(y & Hy & H)]; eauto.
    + intros [H|(y & [<-|Hy] & H)]; eauto.
Qed.

Variable r : value -> list loc -> outcome (list loc).
Variable Q : value -> loc -> Prop.
Hypothesis r_adds : forall x, adds Q r x.

Lemma analyze_elements_adds o :
  adds (fun o l => exists elements items c,
          getattr o "elements" = Some elements /\ truthy elements = true /\
          py_iter elements = Some items /\ In c items /\ Q c l)
       (analyze_elements r) o.
Proof.
  intros t t'. unfold analyze_elements.
  destruct (getattr o "elements") as [els|] eqn:E1.
  2:{ intros [= <-] l. split; [tauto|].
      intros [H|(? & ? & ? & [=] & _)]; exact H. }
  destruct (truthy els) eqn:E2.
  2:{ intros [= <-] l. split; [tauto|].
      intros [H|(? & ? & ? & [= <-] & Ht & _)]; [exact H|congruence]. }
  destruct (py_iter els) as [items|] eqn:E3; [|discriminate].
  intros E l.
  rewrite (for_each_adds Q r items (fun x _ => r_adds x) t t' E l).
  split.
  - intros [H|(c & Hc & H)]; [tauto|]. right. exists els, items, c. tauto.
  - intros [H|(els' & items' & c & [= <-] & _ & E3' & Hc & H)]; [tauto|].
    right. exists c. split; [congruence|exact H].
Qed.

Lemma visit_items_adds items :
  adds (fun items l => exists c, In c items /\ has_dict h c = true /\ Q c l)
       (visit_items h r) items.
Proof.
  unfold visit_items.
  apply (for_each_adds (fun c l => has_dict h c = true /\ Q c l)).
  intros c _ t t'. destruct (has_dict h c).
  - intros E l. rewrite (r_adds c t t' E l). tauto.
  - intros [= <-] l. split; [tauto|]. intros [H|[[=] _]]. exact H.
Qed.

Lemma check_other_collections_adds o :
  adds (fun o l => exists attr_name items c,
          In (attr_name, VList items) (obj_dict o) /\
          startswith_underscore attr_name = false /\
          In c items /\ has_dict h c = true /\ Q c l)
       (check_other_collections h r) o.
Proof.
  intros t t' E l. unfold check_other_collections in E.
  pose (QA := fun (nv : string * value) l =>
    exists items c, snd nv = VList items /\
      startswith_underscore (fst nv) = false /\
      In c items /\ has_dict h c = true /\ Q c l).
  assert (Hstep : forall nv, In nv (obj_dict o) ->
            adds QA (fun '(attr_name, attr_value) a =>
              match attr_value with
              | VList items =>
                  if negb (startswith_underscore attr_name)
                  then visit_items h r items a
                  else Ok a
              | _ => Ok a
              end) nv).
  { intros [name v] _ s s'. unfold QA; simpl.
    destruct v as [|b|z|s0|items|l'];
      try (intros [= <-] l0; split; [tauto|];
           intros [H|(? & ? & [=] & _)]; exact H).
    destruct (startswith_underscore name) eqn:En; simpl.
    - intros [= <-] l0. split; [tauto|].
      intros [H|(? & ? & _ & [=] & _)]; exact H.
    - intros E0 l0. rewrite (visit_items_adds items s s' E0 l0). split.
      + intros [H|(c & ? & ? & ?)]; [tauto|]. right. exists items, c. tauto.
      + intros [H|(items' & c & [= <-] & _ & ? & ? & ?)]; [tauto|].
        right. exists c. tauto. }
  rewrite (for_each_adds QA _ (obj_dict o) Hstep t t' E l).
  unfold QA. split.
  - intros [H|([name v] & Hin & items & c & Hv & Hn & Hc)]; [tauto|].
    simpl in Hv, Hn. subst v. right. exists name, items, c. tauto.
  - intros [H|(name & items & c & Hin & Hn & Hc)]; [tauto|].
    right. exists (name, VList items). split; [exact Hin|].
    exists items, c. simpl. tauto.
Qed.
End Members.

Section Reach.
Variable h : heap.

Lemma reach_has_dict k c l : reach h k c l -> has_dict h c = true.
Proof.
  intros H; inversion H; subst; unfold has_dict, get_dict;
    match goal with E : h !! _ = Some _ |- _ => rewrite E end; reflexivity.
Qed.

Lemma tour_rec_reach n M :
  forall d x,
    adds (fun x l => exists k : nat, d + Z.of_nat k <= M /\ reach h k x l)
         (fun x t => tour_rec h n x t M d) x.
Proof.
  induction n as [|n IH]; intros d x t t'; simpl.
  - destruct (Z.ltb_spec M d) as [Hd|Hd]; [|discriminate].
    intros [= <-] l. split; [tauto|]. intros [H|(k & Hk & _)]; [exact H|lia].
  - destruct (Z.ltb_spec M d) as [Hd|Hd].
    { intros [= <-] l. split; [tauto|].
      intros [H|(k & Hk & _)]; [exact H|lia]. }
    unfold tour_body.
    destruct (get_dict h x) as [o|] eqn:Ex.
    2:{ intros [= <-] l. split; [tauto|]. intros [H|(k & _ & Hr)]; [exact H|].
        apply reach_has_dict in Hr. unfold has_dict in Hr.
        rewrite Ex in Hr. discriminate. }
    destruct x as [| | | | |l0]; try discriminate.
    change (h !! l0 = Some o) in Ex.
    intros E l. simpl in E. apply bind_Ok in E as (t2 & E2 & E3).
    rewrite (check_other_collections_adds h _ _ (IH (d + 1)) o t2 t' E3 l).
    rewrite (analyze_elements_adds _ _ (IH (d + 1)) o _ t2 E2 l).
    rewrite in_app_iff. simpl. split.
    + intros [[[H|[<-|[]]]|H]|H].
      * tauto.
      * right. exists O. split; [lia|]. econstructor; exact Ex.
      * destruct H as (els & items & c & H1 & H2 & H3 & H4 & k & Hk & Hr).
        right. exists (S k). split; [lia|].
        apply (reach_step h k l0 o c l Ex); [|exact Hr].
        left. exists els, items. tauto.
      * destruct H as (name & items & c & H1 & H2 & H3 & H4 & k & Hk & Hr).
        right. exists (S k). split; [lia|].
        apply (reach_step h k l0 o c l Ex); [|exact Hr].
        right. exists name, items. tauto.
    + intros [H|(k & Hk & Hr)]; [tauto|].
      inversion Hr as [l1 o1 H1|k' l1 o1 c l2 H1 Hc Hr']; subst.
      * tauto.
      * assert (o1 = o) by congruence. subst o1.
        destruct Hc as [(els & items & G1 & G2 & G3 & G4)
                       |(name & items & G1 & G2 & G3)].
        -- left. right. exists els, items, c. repeat split; try assumption.
           exists k'. split; [lia|exact Hr'].
        -- right. exists name, items, c. repeat split; try assumption.
           ++ eapply reach_has_dict; exact Hr'.
           ++ exists k'. split; [lia|exact Hr'].
Qed.

(** The tour lists exactly the objects that are at most [max_depth]
    recursive calls below the root. *)
Lemma tour_reach data M d t :
  tour h data M d = Ok t ->
  forall l, In l t <-> exists k : nat, d + Z.of_nat k <= M /\ reach h k data l.
Proof.
  intros E l. rewrite (tour_rec_reach _ M d data [] t E l). simpl. tauto.
Qed.
End Reach.

(** ** The classification step *)

Lemma ifc_type_of_Some o ty :
  ifc_type_of o = Some ty <->
  getattr o "speckle_type" = Some ty /\ truthy ty = true /\
  py_eq ty (VStr MESH) = false.
Proof.
  unfold ifc_type_of. destruct (getattr o "speckle_type") as [v|].
  - destruct (truthy v) eqn:Et, (py_eq v (VStr MESH)) eqn:Em; simpl; split;
      try discriminate; try (intros [= <-]; tauto);
      intros ([= <-] & H1 & H2); congruence.
  - split; [discriminate|]. intros ([=] & _).
Qed.

Lemma record_instance_hashable o ty a :
  hashable ty = true ->
  record_instance o ty a =
  Ok (dict_alter (append_instance (make_instance_info o)) ty
        (dict_alter incr_count ty
           (if dict_contains ty a then a
            else dict_add ty {| count := 0; instances := [] |} a))).
Proof.
  intros H. unfold record_instance. rewrite H.
  destruct (dict_contains ty a); reflexivity.
Qed.

(** On a node of the minimal shape the discriminator that is counted is a
    string, and a string can be a dictionary key. *)
Lemma shaped_ifc_type o ty :
  type_shaped o = true -> ifc_type_of o = Some ty -> exists s, ty = VStr s.
Proof.
  unfold type_shaped. intros Hs Hty.
  apply ifc_type_of_Some in Hty as (E & Ht & _).
  rewrite E in Hs. destruct ty; simpl in *; try discriminate. eauto.
Qed.

Lemma classify_shaped o a :
  type_shaped o = true -> exists a', classify o a = Ok a'.
Proof.
  intros Hs. unfold classify. destruct (ifc_type_of o) as [ty|] eqn:E; [|eauto].
  destruct (shaped_ifc_type o ty Hs E) as (s & ->).
  rewrite record_instance_hashable by reflexivity. eauto.
Qed.

(** ** The traversal returns on every graph of the minimal shape *)

Section Total.
Variable h : heap.
Hypothesis h_shaped : well_shaped h.

Lemma analyze_elements_total {S} (r : value -> S -> outcome S) o :
  shaped o = true ->
  (forall x s, exists s', r x s = Ok s') ->
  forall s, exists s', analyze_elements r o s = Ok s'.
Proof.
  unfold shaped, elements_shaped, analyze_elements. intros Hs Hr s.
  apply andb_true_iff in Hs as [_ Hs].
  destruct (getattr o "elements") as [els|]; [|eauto].
  destruct els; try discriminate; simpl; [eauto|].
  destruct items; [eauto|]. apply for_each_total. intros; apply Hr.
Qed.

Lemma check_other_collections_total {S} (r : value -> S -> outcome S) o :
  (forall x s, exists s', r x s = Ok s') ->
  forall s, exists s', check_other_collections h r o s = Ok s'.
Proof.
  intros Hr. unfold check_other_collections. apply for_each_total.
  intros [name v] s _. destruct v; eauto.
  destruct (negb (startswith_underscore name)); [|eauto].
  unfold visit_items. revert s. apply for_each_total.
  intros x s _. destruct (has_dict h x); eauto.
Qed.

Lemma extract_rec_total n M :
  forall d x a, (Z.to_nat (M - d + 1) <= n)%nat ->
    exists a', extract_rec h n x a M d = Ok a'.
Proof.
  induction n as [|n IH]; intros d x a Hn; simpl.
  - destruct (Z.ltb_spec M d); [eauto|lia].
  - destruct (Z.ltb_spec M d); [eauto|].
    set (a0 := match a with Some a1 => a1 | None => [] end).
    assert (Hr : forall y s, exists s',
               extract_rec h n y (Some s) M (d + 1) = Ok s').
    { intros y s. apply IH. lia. }
    unfold extract_body. destruct (get_dict h x) as [o|] eqn:Ex; [|eauto].
    assert (Ho : shaped o = true).
    { destruct x; try discriminate. exact (h_shaped _ _ Ex). }
    destruct (classify_shaped o a0) as (a1 & ->).
    { apply andb_true_iff in Ho. tauto. }
    simpl.
    destruct (analyze_elements_total _ o Ho Hr a1) as (a2 & ->). simpl.
    apply check_other_collections_total, Hr.
Qed.

Lemma extract_ifc_types_total data a M d :
  exists a', extract_ifc_types h data a M d = Ok a'.
Proof. apply extract_rec_total. lia. Qed.
End Total.

(** ** The dictionary *)

Lemma py_eq_refl v : hashable v = true -> py_eq v v = true.
Proof.
  destruct v as [|b|z|s|items|l]; simpl; try discriminate; intros _.
  - reflexivity.
  - destruct b; reflexivity.
  - apply Z.eqb_refl.
  - apply String.eqb_refl.
  - apply Nat.eqb_refl.
Qed.

Lemma dict_contains_get k d :
  dict_contains k d = match dict_get k d with Some _ => true | None => false end.
Proof.
  induction d as [|[k' b] d IH]; simpl; [reflexivity|].
  destruct (py_eq k' k); simpl; [reflexivity|exact IH].
Qed.

Lemma dict_get_alter f k d :
  dict_get k (dict_alter f k d) = option_map f (dict_get k d).
Proof.
  induction d as [|[k' b] d IH]; simpl; [reflexivity|].
  destruct (py_eq k' k) eqn:E; simpl; rewrite E; [reflexivity|exact IH].
Qed.

Lemma dict_get_add k b d :
  py_eq k k = true -> dict_get k d = None -> dict_get k (dict_add k b d) = Some b.
Proof.
  intros Hk. unfold dict_add.
  induction d as [|[k' b'] d IH]; simpl; [rewrite Hk; reflexivity|].
  destruct (py_eq k' k); [discriminate|exact IH].
Qed.

Lemma dict_alter_alter f g k d :
  dict_alter g k (dict_alter f k d) = dict_alter (fun b => g (f b)) k d.
Proof.
  induction d as [|[k' b] d IH]; simpl; [reflexivity|].
  destruct (py_eq k' k) eqn:E; simpl; rewrite E; [reflexivity|].
  f_equal. exact IH.
Qed.

Lemma dict_alter_Forall (P : value * bucket -> Prop) f k d :
  (forall k' b, P (k', b) -> P (k', f b)) ->
  Forall P d -> Forall P (dict_alter f k d).
Proof.
  intros Hf. induction 1 as [|[k' b] d Hb Hd IH]; simpl; [constructor|].
  destruct (py_eq k' k); constructor; auto.
Qed.

(** What the classification of a counted object does to the bucket of its
    type: one more in [count], one more record at the end of [instances]. *)
Lemma classify_bucket o ty a a' :
  ifc_type_of o = Some ty -> classify o a = Ok a' ->
  let before := default fresh_bucket (dict_get ty a) in
  dict_get ty a' =
  Some {| count := count before + 1;
          instances := instances before ++ [make_instance_info o] |}.
Proof.
  intros Hty. unfold classify. rewrite Hty. unfold record_instance.
  destruct (hashable ty) eqn:Hh; [|discriminate]. intros [= <-].
  rewrite !dict_get_alter, dict_contains_get.
  destruct (dict_get ty a) as [b|] eqn:E; simpl.
  - rewrite E. reflexivity.
  - rewrite dict_get_add by (auto using py_eq_refl). reflexivity.
Qed.

Lemma classify_unclassified o a :
  ifc_type_of o = None -> classify o a = Ok a.
Proof. intros E. unfold classify. rewrite E. reflexivity. Qed.

Lemma classify_consistent o a a' :
  consistent a -> classify o a = Ok a' -> consistent a'.
Proof.
  unfold classify. destruct (ifc_type_of o) as [ty|]; [|intros H [= <-]; exact H].
  unfold record_instance. destruct (hashable ty); [|discriminate].
  intros Ha [= <-]. rewrite dict_alter_alter. apply dict_alter_Forall.
  - intros k b. simpl. rewrite length_app. simpl. lia.
  - destruct (dict_contains ty a); simpl; [exact Ha|].
    apply Forall_app. split; [exact Ha|]. constructor; [reflexivity|constructor].
Qed.

Lemma aggregate_consistent h ls a a' :
  consistent a -> aggregate h ls a = Ok a' -> consistent a'.
Proof.
  apply (for_each_invariant consistent). intros l s s' _ Hs.
  unfold classify_at. destruct (h !! l) as [o|]; [|intros [= <-]; exact Hs].
  apply classify_consistent, Hs.
Qed.

Lemma aggregate_filter h ls a :
  aggregate h (List.filter (classifiable h) ls) a = aggregate h ls a.
Proof.
  revert a. induction ls as [|l ls IH]; intros a; [reflexivity|].
  unfold aggregate in *. simpl.
  unfold classifiable at 1, classify_at at 2.
  destruct (h !! l) as [o|] eqn:El; simpl.
  - destruct (ifc_type_of o) as [ty|] eqn:Ety; simpl.
    + unfold classify_at at 1. rewrite El.
      destruct (classify o a); simpl; auto.
    + rewrite classify_unclassified by exact Ety. simpl. apply IH.
  - apply IH.
Qed.

(** ** Ways of stopping that a run avoids *)

Lemma bind_never {A B} w (m : outcome A) (k : A -> outcome B) :
  never w m -> (forall a, never w (k a)) -> never w (bind m k).
Proof. destruct m; simpl; auto. Qed.

Lemma for_each_never {A S} w (f : A -> S -> outcome S) xs :
  (forall x s, never w (f x s)) -> forall s, never w (for_each f xs s).
Proof.
  intros Hf. induction xs as [|x xs IH]; intros s; simpl; [discriminate|].
  apply bind_never; auto.
Qed.

Lemma classify_never w o a :
  w <> Raised Unhashable -> never w (classify o a).
Proof.
  intros Hw. unfold classify, record_instance.
  destruct (ifc_type_of o) as [ty|]; [|discriminate].
  destruct (hashable ty); [discriminate|]. unfold never; simpl. congruence.
Qed.

Section Never.
Variable h : heap.
Variable w : stop.
Hypothesis w_iter : w <> Raised NotIterable.

Lemma analyze_elements_never {S} (r : value -> S -> outcome S) o s :
  (forall x s, never w (r x s)) -> never w (analyze_elements r o s).
Proof.
  intros Hr. unfold analyze_elements.
  destruct (getattr o "elements") as [els|]; [|discriminate].
  destruct (truthy els); [|discriminate].
  destruct (py_iter els).
  - apply for_each_never, Hr.
  - unfold never; simpl. congruence.
Qed.

Lemma check_other_collections_never {S} (r : value -> S -> outcome S) o s :
  (forall x s, never w (r x s)) -> never w (check_other_collections h r o s).
Proof.
  intros Hr. unfold check_other_collections. apply for_each_never.
  intros [name v] t. destruct v; try discriminate.
  destruct (negb (startswith_underscore name)); [|discriminate].
  unfold visit_items. apply for_each_never.
  intros x u. destruct (has_dict h x); [apply Hr|discriminate].
Qed.

Hypothesis classify_w :
  forall l o a, h !! l = Some o -> never w (classify o a).

Lemma extract_rec_never n M :
  forall d x a, (w = Starved -> (Z.to_nat (M - d + 1) <= n)%nat) ->
    never w (extract_rec h n x a M d).
Proof.
  induction n as [|n IH]; intros d x a Hn; simpl.
  - destruct (Z.ltb_spec M d); [discriminate|].
    unfold never; simpl. intros [= <-]. specialize (Hn eq_refl). lia.
  - destruct (Z.ltb_spec M d); [discriminate|].
    assert (Hr : forall y s, never w (extract_rec h n y (Some s) M (d + 1))).
    { intros y s. apply IH. intros Hw. specialize (Hn Hw). lia. }
    unfold extract_body. destruct (get_dict h x) as [o|] eqn:Ex; [|discriminate].
    apply bind_never.
    { destruct x; try discriminate. exact (classify_w _ _ _ Ex). }
    intros a1. apply bind_never.
    { apply analyze_elements_never, Hr. }
    intros a2. apply check_other_collections_never, Hr.
Qed.
End Never.

(** With the fuel that [extract_ifc_types] supplies, the recursion never
    runs out of it, whatever the graph. *)
Lemma extract_ifc_types_finishes h data a M d :
  extract_ifc_types h data a M d <> OutOfFuel.
Proof.
  intros E.
  apply (extract_rec_never h Starved ltac:(discriminate)
           (fun l o a _ => classify_never Starved o a ltac:(discriminate))
           (Z.to_nat (M - d + 1)) M d data a (fun _ => le_n _)).
  unfold extract_ifc_types in E. rewrite E. reflexivity.
Qed.

(** The shape of a given graph can be checked by evaluation. *)
Lemma well_shaped_decide h :
  bool_decide (map_Forall (fun _ o => shaped o = true) h) = true ->
  well_shaped h.
Proof. intros H. apply bool_decide_eq_true in H. exact H. Qed.

Lemma well_shaped_well_typed h : well_shaped h -> well_typed h.
Proof.
  intros H l o Hl. specialize (H l o Hl). apply andb_true_iff in H. tauto.
Qed.

(** ** Sorting *)

Section Sorting.
Context {A : Type} (key : A -> Z).

Lemma insert_by_perm x l : Permutation (insert_by key x l) (x :: l).
Proof.
  induction l as [|y l IH]; simpl; [reflexivity|].
  destruct (key y <? key x); [|reflexivity].
  rewrite IH. apply perm_swap.
Qed.

Lemma sort_by_perm l : Permutation (sort_by key l) l.
Proof.
  induction l as [|x l IH]; simpl; [reflexivity|].
  rewrite insert_by_perm, IH. reflexivity.
Qed.

Lemma insert_by_sorted x l :
  StronglySorted (fun a b => key a <= key b) l ->
  StronglySorted (fun a b => key a <= key b) (insert_by key x l).
Proof.
  induction 1 as [|y l Hl IH Hy]; simpl.
  - repeat constructor.
  - destruct (Z.ltb_spec (key y) (key x)).
    + constructor; [exact IH|].
      rewrite insert_by_perm. constructor; [lia|exact Hy].
    + constructor; [constructor; assumption|].
      constructor; [exact H|].
      eapply Forall_impl; [exact Hy|]. simpl. intros; lia.
Qed.

Lemma sort_by_sorted l :
  StronglySorted (fun a b => key a <= key b) (sort_by key l).
Proof.
  induction l as [|x l IH]; simpl; [constructor|].
  apply insert_by_sorted, IH.
Qed.

(** An insertion moves [x] only past items of a smaller key, so the items
    of any one key keep their order. *)
Lemma insert_by_stable c x l :
  List.filter (fun a => key a =? c) (insert_by key x l) =
  List.filter (fun a => key a =? c) (x :: l).
Proof.
  induction l as [|y l IH]; [reflexivity|].
  simpl insert_by. destruct (Z.ltb_spec (key y) (key x)); [|reflexivity].
  simpl. simpl in IH. rewrite IH.
  destruct (Z.eqb_spec (key y) c), (Z.eqb_spec (key x) c); try reflexivity. lia.
Qed.

Lemma sort_by_stable c l :
  List.filter (fun a => key a =? c) (sort_by key l) =
  List.filter (fun a => key a =? c) l.
Proof.
  induction l as [|x l IH]; [reflexivity|].
  simpl sort_by. rewrite insert_by_stable. simpl. rewrite IH. reflexivity.
Qed.

Lemma sorted_rev l :
  StronglySorted (fun a b => key a <= key b) l ->
  StronglySorted (fun a b => key b <= key a) (rev l).
Proof.
  induction 1 as [|x l Hl IH Hx]; simpl; [constructor|].
  apply StronglySorted_app. split; [|split; [exact IH|repeat constructor]].
  intros a b Ha Hb. apply list_elem_of_In in Ha, Hb.
  destruct Hb as [<-|[]]. apply in_rev in Ha.
  rewrite Forall_forall in Hx. apply Hx. apply list_elem_of_In. exact Ha.
Qed.
End Sorting.

(** ** Two calls in a row *)

Lemma call_twice_eq h data M alive :
  call_twice h data M alive =
  try a := extract_ifc_types h data None M 0 in
  Ok (length alive, S (length alive), alive ++ [a; a]).
Proof.
  unfold call_twice, call_extract_ifc_types.
  destruct (extract_ifc_types h data None M 0) as [a| |]; simpl; try reflexivity.
  rewrite length_app, <- app_assoc. simpl. rewrite Nat.add_1_r. reflexivity.
Qed.

(** ** The loop over [__dict__] *)

Section Other.
Variable h : heap.

Lemma visit_items_filter {S} (r : value -> S -> outcome S) items s :
  visit_items h r items s = for_each r (List.filter (has_dict h) items) s.
Proof.
  unfold visit_items. revert s.
  induction items as [|x items IH]; intros s; simpl; [reflexivity|].
  destruct (has_dict h x); simpl; [|apply IH].
  destruct (r x s); simpl; auto.
Qed.

Lemma check_other_collections_items {S} (r : value -> S -> outcome S) o s :
  check_other_collections h r o s = for_each r (secondary_items h o) s.
Proof.
  unfold check_other_collections, secondary_items. revert s.
  induction (obj_dict o) as [|[name v] d IH]; intros s; simpl; [reflexivity|].
  rewrite for_each_app.
  destruct v as [| | | |items|]; simpl; try apply IH.
  destruct (negb (startswith_underscore name)); simpl; [|apply IH].
  rewrite visit_items_filter.
  destruct (for_each r (List.filter (has_dict h) items) s); simpl; auto.
Qed.

Lemma secondary_items_In o c :
  In c (secondary_items h o) <->
  exists attr_name items,
    In (attr_name, VList items) (obj_dict o) /\
    startswith_underscore attr_name = false /\
    In c items /\ has_dict h c = true.
Proof.
  unfold secondary_items. rewrite in_flat_map. split.
  - intros ([name v] & Hin & Hc).
    destruct v as [| | | |items|]; try contradiction.
    destruct (startswith_underscore name) eqn:En; simpl in Hc; [contradiction|].
    apply filter_In in Hc. exists name, items. tauto.
  - intros (name & items & Hin & Hn & Hc).
    exists (name, VList items). split; [exact Hin|].
    rewrite Hn. simpl. apply filter_In. exact Hc.
Qed.
End Other.

(** ** What the traversal does not read *)

Lemma assoc_filter keep name d :
  (forall v, keep (name, v) = true) ->
  assoc name (List.filter keep d) = assoc name d.
Proof.
  intros Hk. induction d as [|[k v] d IH]; simpl; [reflexivity|].
  destruct (String.eqb_spec k name) as [->|Hne].
  - rewrite Hk. simpl. rewrite String.eqb_refl. reflexivity.
  - destruct (keep (k, v)); simpl; [|exact IH].
    destruct (String.eqb_spec k name); [contradiction|exact IH].
Qed.

Lemma getattr_prune o name :
  read_by_name name = true -> getattr (prune o) name = getattr o name.
Proof.
  intros Hn. unfold getattr, prune; simpl.
  rewrite assoc_filter; [reflexivity|]. intros v. rewrite Hn. reflexivity.
Qed.

Lemma classify_prune o a : classify (prune o) a = classify o a.
Proof.
  unfold classify, ifc_type_of, record_instance, make_instance_info,
    getattr_default.
  rewrite !getattr_prune by reflexivity. reflexivity.
Qed.

Lemma analyze_elements_prune {S} (r : value -> S -> outcome S) o s :
  analyze_elements r (prune o) s = analyze_elements r o s.
Proof.
  unfold analyze_elements. rewrite getattr_prune by reflexivity. reflexivity.
Qed.

Section Prune.
Variable h : heap.

Lemma get_dict_prune x : get_dict (prune <$> h) x = prune <$> get_dict h x.
Proof. destruct x; try reflexivity. simpl. apply lookup_fmap. Qed.

Lemma has_dict_prune x : has_dict (prune <$> h) x = has_dict h x.
Proof.
  unfold has_dict. rewrite get_dict_prune. destruct (get_dict h x); reflexivity.
Qed.

Lemma secondary_items_prune o :
  secondary_items (prune <$> h) (prune o) = secondary_items h o.
Proof.
  unfold secondary_items, prune; simpl.
  induction (obj_dict o) as [|[name v] d IH]; simpl; [reflexivity|].
  assert (Hf : forall items,
             List.filter (fun item => has_dict (prune <$> h) item) items =
             List.filter (fun item => has_dict h item) items).
  { intros items. apply filter_ext. intros x. apply has_dict_prune. }
  destruct (read_by_name name) eqn:Er; simpl.
  - rewrite IH. destruct v; try reflexivity. rewrite Hf. reflexivity.
  - destruct (startswith_underscore name) eqn:En; simpl.
    + rewrite IH. destruct v; reflexivity.
    + destruct v; simpl; try exact IH. rewrite En. simpl.
      rewrite IH, Hf. reflexivity.
Qed.

Lemma extract_rec_prune n M :
  forall d x a,
    extract_rec (prune <$> h) n x a M d = extract_rec h n x a M d.
Proof.
  induction n as [|n IH]; intros d x a; simpl; [reflexivity|].
  destruct (M <? d); [reflexivity|].
  unfold extract_body. rewrite get_dict_prune.
  destruct (get_dict h x) as [o|]; simpl; [|reflexivity].
  rewrite classify_prune.
  destruct (classify o _) as [a1| |]; simpl; try reflexivity.
  rewrite analyze_elements_prune.
  rewrite (analyze_elements_ext _
             (fun x0 a0 => extract_rec h n x0 (Some a0) M (d + 1)))
    by (intros; apply IH).
  destruct (analyze_elements _ o a1) as [a2| |]; simpl; try reflexivity.
  rewrite !check_other_collections_items, secondary_items_prune.
  apply for_each_ext. intros; apply IH.
Qed.
End Prune.

(** * The claims *)

(** C1 (the end-to-end scenario).  On the graph of the scenario, with
    [max_depth = 10] and no dictionary passed, the traversal returns
    [Wall] with count 6 and samples g1, g3, g3, g1, g3, g3, and [Door]
    with count 2 and samples g2, g2: the loop over [__dict__] walks
    [elements] a second time.  This is not the mapping that the
    specification expects, [Wall] 2 (g1, g3) and [Door] 1 (g2). *)
Theorem scenario_counts_elements_twice :
  extract_ifc_types Scenario.graph (VRef 0%nat) None 10 0 = Ok Samples.returned /\
  Samples.returned <> Samples.expected.
Proof. split; [vm_compute; reflexivity|discriminate]. Qed.

(** The expected mapping is what comes out when [elements] is not an
    entry of [__dict__], so that only line 173 walks it. *)
Lemma scenario_elements_on_class :
  extract_ifc_types Samples.graph_on_class (VRef 0%nat) None 10 0 =
  Ok Samples.expected.
Proof. vm_compute. reflexivity. Qed.

(** C2 (depth bound).  A call made with [current_depth > max_depth]
    returns the dictionary it was given, and enters no object.  A call
    from depth 0 that returns, returns the aggregation of the counted
    objects it enters, and these are exactly the counted objects that are
    at most [max_depth] recursive calls below the root, however many
    children a node has; on a graph of the minimal shape the call does
    return.  The default of [max_depth] is 10. *)
Theorem depth_bound h data M :
  (forall a d, M < d ->
     extract_ifc_types h data a M d = Ok (default [] a) /\
     tour h data M d = Ok []) /\
  (forall a', extract_ifc_types h data None M 0 = Ok a' ->
     exists t,
       tour h data M 0 = Ok t /\
       aggregate h (List.filter (classifiable h) t) [] = Ok a' /\
       forall l, In l (List.filter (classifiable h) t) <->
                 classifiable h l = true /\
                 exists k : nat, Z.of_nat k <= M /\ reach h k data l) /\
  (well_shaped h -> exists a', extract_ifc_types h data None M 0 = Ok a') /\
  extract_ifc_types_default h data = extract_ifc_types h data None 10 0.
Proof.
  split; [|split; [|split; [|reflexivity]]].
  - intros a d Hd. split.
    + rewrite extract_ifc_types_eq. cbv zeta.
      destruct (Z.ltb_spec M d); [|lia]. destruct a; reflexivity.
    + unfold tour. destruct (Z.to_nat (M - d + 1)); simpl;
        destruct (Z.ltb_spec M d); try lia; reflexivity.
  - intros a' E.
    destruct (extract_tour h data None M 0 a' E) as (t & Et & Ea).
    exists t. split; [exact Et|].
    split; [rewrite aggregate_filter; exact Ea|].
    intros l. rewrite filter_In, (tour_reach h data M 0 t Et l).
    split.
    + intros [(k & Hk & Hr) H1]. split; [exact H1|].
      exists k. split; [lia|exact Hr].
    + intros [H1 (k & Hk & Hr)]. split; [|exact H1].
      exists k. split; [lia|exact Hr].
  - intros Hh. apply extract_ifc_types_total, Hh.
Qed.

Lemma depth_bound_witness :
  (extract_ifc_types Scenario.graph (VRef 0%nat) (Some Samples.expected) 1 2 =
     Ok Samples.expected /\
   tour Scenario.graph (VRef 0%nat) 1 2 = Ok []) /\
  (exists t,
     tour Scenario.graph (VRef 0%nat) 1 0 = Ok t /\
     aggregate Scenario.graph (List.filter (classifiable Scenario.graph) t) [] =
       Ok Samples.within_one /\
     forall l, In l (List.filter (classifiable Scenario.graph) t) <->
               classifiable Scenario.graph l = true /\
               exists k : nat, Z.of_nat k <= 1 /\
                               reach Scenario.graph k (VRef 0%nat) l) /\
  (exists a', extract_ifc_types Scenario.graph (VRef 0%nat) None 1 0 = Ok a').
Proof.
  destruct (depth_bound Scenario.graph (VRef 0%nat) 1) as (H1 & H2 & H3 & _).
  split; [|split].
  - apply (H1 (Some Samples.expected) 2). lia.
  - apply H2. vm_compute. reflexivity.
  - apply H3. apply well_shaped_decide. vm_compute. reflexivity.
Defined.



(** The door held by the mesh is entered by both walks and counted twice;
    the mesh is not counted. *)
Lemma mesh_graph_returns :
  tour Samples.mesh_graph (VRef 0%nat) 10 0 = Ok [0%nat; 1%nat; 1%nat] /\
  (exists a', extract_ifc_types Samples.mesh_graph (VRef 0%nat) (Some []) 10 0 =
              Ok a' /\
              keys a' = [VStr "Door"] /\ total_instances a' = 2).
Proof. split; [|eexists; split; [|split]]; vm_compute; reflexivity. Qed.

(** C4 (default substitution).  For a node of the minimal shape that is
    counted, the classification step returns, the bucket of the node's type
    gains one record at its end, and in that record each of [GlobalId],
    [Name], [ObjectType] and [Tag] is the node's attribute of that name
    when the node has it, and ["Unknown"] when it has not. *)
Theorem default_substitution o ty a :
  type_shaped o = true ->
  ifc_type_of o = Some ty ->
  exists a' before info,
    classify o a = Ok a' /\
    before = default fresh_bucket (dict_get ty a) /\
    dict_get ty a' = Some {| count := count before + 1;
                             instances := instances before ++ [info] |} /\
    attribute_or_unknown o "GlobalId" (GlobalId info) /\
    attribute_or_unknown o "Name" (Name info) /\
    attribute_or_unknown o "ObjectType" (ObjectType info) /\
    attribute_or_unknown o "Tag" (Tag info).
Proof.
  intros Hs Hty. destruct (classify_shaped o a Hs) as (a' & E).
  exists a', (default fresh_bucket (dict_get ty a)), (make_instance_info o).
  split; [exact E|]. split; [reflexivity|].
  split; [exact (classify_bucket o ty a a' Hty E)|].
  unfold attribute_or_unknown, make_instance_info, getattr_default, Unknown; simpl.
  repeat split;
    match goal with |- match ?g with _ => _ end => destruct g; reflexivity end.
Qed.

Lemma default_substitution_witness :
  exists a' before info,
    classify Samples.door [] = Ok a' /\
    before = default fresh_bucket (dict_get (VStr "Door") []) /\
    dict_get (VStr "Door") a' =
      Some {| count := count before + 1;
              instances := instances before ++ [info] |} /\
    attribute_or_unknown Samples.door "GlobalId" (GlobalId info) /\
    attribute_or_unknown Samples.door "Name" (Name info) /\
    attribute_or_unknown Samples.door "ObjectType" (ObjectType info) /\
    attribute_or_unknown Samples.door "Tag" (Tag info).
Proof.
  apply (default_substitution Samples.door (VStr "Door") []); reflexivity.
Defined.

(** C5 (count/sample consistency).  The classification step keeps
    [count == len(instances)] in every bucket: on a counted node it adds 1
    to the count of the node's bucket and one record to its list, and
    leaves the dictionary alone otherwise.  Hence every dictionary that a
    call started without one returns has [count == len(instances)] in
    every bucket; and on a graph of the minimal shape the call does
    return. *)
Theorem count_is_length_of_instances h data M :
  (forall o a a', consistent a -> classify o a = Ok a' -> consistent a') /\
  (forall o ty a a', ifc_type_of o = Some ty -> classify o a = Ok a' ->
     let before := default fresh_bucket (dict_get ty a) in
     exists info,
       dict_get ty a' = Some {| count := count before + 1;
                                instances := instances before ++ [info] |}) /\
  (forall o a, ifc_type_of o = None -> classify o a = Ok a) /\
  (forall a', extract_ifc_types h data None M 0 = Ok a' -> consistent a') /\
  (well_shaped h ->
   exists a', extract_ifc_types h data None M 0 = Ok a' /\ consistent a').
Proof.
  assert (H : forall a', extract_ifc_types h data None M 0 = Ok a' ->
                         consistent a').
  { intros a' E. apply extract_tour in E as (t & _ & E).
    apply (aggregate_consistent h t [] a'); [constructor|exact E]. }
  split; [exact classify_consistent|].
  split; [intros o ty a a' Hty E; eexists; exact (classify_bucket o ty a a' Hty E)|].
  split; [exact classify_unclassified|].
  split; [exact H|].
  intros Hh. destruct (extract_ifc_types_total h Hh data None M 0) as (a' & E).
  exists a'. split; [exact E|exact (H a' E)].
Qed.

Lemma count_is_length_of_instances_witness :
  consistent [(VStr "Door",
               {| count := 1; instances := [make_instance_info Samples.door] |})] /\
  (exists info,
     dict_get (VStr "Door")
       [(VStr "Door",
         {| count := 1; instances := [make_instance_info Samples.door] |})] =
     Some {| count := 0 + 1; instances := [] ++ [info] |}) /\
  classify Samples.mesh_parent [] = Ok [] /\
  consistent Samples.returned /\
  exists a', extract_ifc_types Scenario.graph (VRef 0%nat) None 10 0 = Ok a' /\
             consistent a'.
Proof.
  destruct (count_is_length_of_instances Scenario.graph (VRef 0%nat) 10)
    as (H1 & H2 & H3 & H4 & H5).
  split; [|split; [|split; [|split]]].
  - apply (H1 Samples.door []); [constructor|reflexivity].
  - apply (H2 Samples.door (VStr "Door") []); reflexivity.
  - apply H3. reflexivity.
  - apply H4. vm_compute. reflexivity.
  - apply H5. apply well_shaped_decide. vm_compute. reflexivity.
Defined.

(** C6 (ranking).  The ranking of a dictionary holds the same buckets, in
    descending order of count, and the buckets of any one count are in the
    order they have in the dictionary: a stable sort on the count,
    descending.  Buckets inserted as A:3, B:5, C:5 are sorted_types B, C, A. *)
Theorem ranked_stable (ifc_types : agg) :
  Permutation (sorted_types ifc_types) ifc_types /\
  descending (sorted_types ifc_types) /\
  (forall c, with_count c (sorted_types ifc_types) = with_count c ifc_types) /\
  (forall a b c : list instance_info,
     sorted_types [(VStr "A", Bucket 3 a); (VStr "B", Bucket 5 b); (VStr "C", Bucket 5 c)] =
     [(VStr "B", Bucket 5 b); (VStr "C", Bucket 5 c); (VStr "A", Bucket 3 a)]).
Proof.
  unfold sorted_types, py_sorted, descending, with_count. repeat split.
  - rewrite <- Permutation_rev, sort_by_perm, <- Permutation_rev. reflexivity.
  - apply (sorted_rev (fun x : value * bucket => count (snd x))), sort_by_sorted.
  - intros c.
    rewrite filter_rev.
    rewrite (sort_by_stable (fun x : value * bucket => count (snd x))).
    rewrite filter_rev, rev_involutive. reflexivity.
Qed.

(** C7 (the traversal can be repeated).  Two calls in a row on the same
    graph, acyclic or not, neither given a dictionary, return two distinct
    dictionaries that are equal: the same keys in the same order, and
    under each key the same count and the same samples in the same order;
    the dictionaries that were alive before are as they were.  On a graph
    of the minimal shape the two calls do return. *)
Theorem traversal_repeatable h data M alive :
  (forall r1 r2 alive',
     call_twice h data M alive = Ok (r1, r2, alive') ->
     r1 <> r2 /\
     (exists a, extract_ifc_types h data None M 0 = Ok a /\
                alive' !! r1 = Some a /\ alive' !! r2 = Some a) /\
     (forall r b, alive !! r = Some b -> alive' !! r = Some b)) /\
  (well_shaped h ->
   exists r1 r2 alive', call_twice h data M alive = Ok (r1, r2, alive')).
Proof.
  rewrite call_twice_eq. split.
  - intros r1 r2 alive' E. apply bind_Ok in E as (a & Ea & [= <- <- <-]).
    split; [lia|]. split.
    + exists a. split; [exact Ea|]. split.
      * rewrite lookup_app_r by lia. rewrite Nat.sub_diag. reflexivity.
      * rewrite lookup_app_r by lia.
        replace (S (length alive) - length alive)%nat with 1%nat by lia.
        reflexivity.
    + intros r b Hr. apply lookup_app_l_Some. exact Hr.
  - intros Hh. destruct (extract_ifc_types_total h Hh data None M 0) as (a & ->).
    simpl. eauto.
Qed.

Lemma traversal_repeatable_witness :
  (1%nat <> 2%nat /\
   (exists a, extract_ifc_types Scenario.graph (VRef 0%nat) None 10 0 = Ok a /\
              ([Samples.expected; Samples.returned; Samples.returned] : dicts)
                !! 1%nat = Some a /\
              ([Samples.expected; Samples.returned; Samples.returned] : dicts)
                !! 2%nat = Some a) /\
   (forall r b, ([Samples.expected] : dicts) !! r = Some b ->
                ([Samples.expected; Samples.returned; Samples.returned] : dicts)
                  !! r = Some b)) /\
  (exists r1 r2 alive',
     call_twice Scenario.graph (VRef 0%nat) 10 [Samples.expected] =
     Ok (r1, r2, alive')).
Proof.
  destruct (traversal_repeatable Scenario.graph (VRef 0%nat) 10 [Samples.expected])
    as (H1 & H2).
  split.
  - apply H1. vm_compute. reflexivity.
  - apply H2. apply well_shaped_decide. vm_compute. reflexivity.
Defined.

(** C8 (the aggregation step is total).  A lookup with the default returns
    the attribute or ["Unknown"], never fails.  On a graph whose nodes have
    an absent, [None] or string discriminator the classification of every
    node returns, and no call of the traversal stops on the error of the
    dictionary; when moreover [elements] is absent, [None] or a list in
    every node, every call of the traversal returns. *)
Theorem aggregation_never_fails h :
  well_typed h ->
  (forall o name, attribute_or_unknown o name (getattr_default o name Unknown)) /\
  (forall l o a, h !! l = Some o -> exists a', classify o a = Ok a') /\
  (forall data a M d, extract_ifc_types h data a M d <> Raise Unhashable) /\
  (well_shaped h ->
   forall data a M d, exists a', extract_ifc_types h data a M d = Ok a').
Proof.
  intros Hh. split; [|split; [|split]].
  - intros o name. unfold attribute_or_unknown, getattr_default, Unknown.
    destruct (getattr o name); reflexivity.
  - intros l o a Hl. apply classify_shaped. exact (Hh l o Hl).
  - intros data a M d E.
    apply (extract_rec_never h (Raised Unhashable) ltac:(discriminate))
      with (n := Z.to_nat (M - d + 1)) (M := M) (d := d) (x := data) (a := a).
    + intros l o a0 Hl. destruct (classify_shaped o a0 (Hh l o Hl)) as (a' & ->).
      discriminate.
    + discriminate.
    + unfold extract_ifc_types in E. rewrite E. reflexivity.
  - intros Hs data a M d. apply extract_ifc_types_total, Hs.
Qed.

Lemma aggregation_never_fails_witness :
  (forall o name, attribute_or_unknown o name (getattr_default o name Unknown)) /\
  (forall l o a, Scenario.graph !! l = Some o -> exists a', classify o a = Ok a') /\
  (forall data a M d,
     extract_ifc_types Scenario.graph data a M d <> Raise Unhashable) /\
  (forall data a M d, exists a', extract_ifc_types Scenario.graph data a M d = Ok a').
Proof.
  assert (Hs : well_shaped Scenario.graph).
  { apply well_shaped_decide. vm_compute. reflexivity. }
  destruct (aggregation_never_fails Scenario.graph
              (well_shaped_well_typed Scenario.graph Hs)) as (H1 & H2 & H3 & H4).
  repeat split; [exact H1|exact H2|exact H3|exact (H4 Hs)].
Defined.

(** A discriminator that is a list stops the call on the error of the
    dictionary. *)
Lemma odd_graph_raises :
  extract_ifc_types Samples.odd_graph (VRef 0%nat) None 10 0 = Raise Unhashable.
Proof. vm_compute. reflexivity. Qed.

(** C9 (termination).  On every graph, cyclic or not, a call made with
    [current_depth > max_depth] returns at once, and any other call runs
    its body, calling itself with [current_depth + 1]; so
    [max_depth - current_depth + 1] levels of recursion are enough: with
    that much fuel or more the recursion gives one and the same outcome,
    which is a result or an exception, never a run without end. *)
Theorem extract_ifc_types_terminates h data a M d fuel :
  (Z.to_nat (M - d + 1) <= fuel)%nat ->
  extract_rec h (S fuel) data a M d =
    (if M <? d then Ok (default [] a)
     else extract_body h
            (fun x a' => extract_rec h fuel x (Some a') M (d + 1))
            data (default [] a)) /\
  extract_rec h fuel data a M d = extract_ifc_types h data a M d /\
  extract_ifc_types h data a M d <> OutOfFuel.
Proof.
  intros Hf. split; [|split].
  - simpl. destruct a; reflexivity.
  - apply extract_rec_fuel; [exact Hf|lia].
  - apply extract_ifc_types_finishes.
Qed.

Lemma extract_ifc_types_terminates_witness :
  extract_rec Samples.cyclic 5 (VRef 0%nat) None 3 0 =
    (if 3 <? 0 then Ok (default [] None)
     else extract_body Samples.cyclic
            (fun x a' => extract_rec Samples.cyclic 4 x (Some a') 3 (0 + 1))
            (VRef 0%nat) (default [] None)) /\
  extract_rec Samples.cyclic 4 (VRef 0%nat) None 3 0 =
    extract_ifc_types Samples.cyclic (VRef 0%nat) None 3 0 /\
  extract_ifc_types Samples.cyclic (VRef 0%nat) None 3 0 <> OutOfFuel.
Proof.
  apply (extract_ifc_types_terminates Samples.cyclic (VRef 0%nat) None 3 0 4).
  vm_compute. lia.
Defined.

(** The wall that lists itself is counted 15 times within depth 3. *)
Lemma cyclic_returns :
  exists a, extract_ifc_types Samples.cyclic (VRef 0%nat) None 3 0 = Ok a /\
            (count <$> dict_get (VStr "Wall") a) = Some 15.
Proof. eexists. split; vm_compute; reflexivity. Qed.

(** C10 (the loop over [__dict__]).  The loop descends into the items
    that have a [__dict__] of the lists held under a name with no leading
    underscore, in order, and into nothing else; what it passes over
    raises nothing.  Taking away from every node the entries of
    [__dict__] that are not read by name and that are under a name with a
    leading underscore, or hold something other than a list, changes the
    outcome of no call: what is reachable only through them is never
    classified and never shows in the dictionary. *)
Theorem other_collections_filter h :
  (forall (r : value -> agg -> outcome agg) o a,
     check_other_collections h r o a = for_each r (secondary_items h o) a) /\
  (forall o c,
     In c (secondary_items h o) <->
     exists attr_name items,
       In (attr_name, VList items) (obj_dict o) /\
       startswith_underscore attr_name = false /\
       In c items /\ has_dict h c = true) /\
  (forall data a M d,
     extract_ifc_types (prune <$> h) data a M d =
     extract_ifc_types h data a M d).
Proof.
  split; [|split].
  - intros r o a. apply check_other_collections_items.
  - apply secondary_items_In.
  - intros data a M d. apply extract_rec_prune.
Qed.

(** A node with a private list, a single object and a list of mixed
    items: only the object in the list is entered. *)
Lemma mixed_graph_tour :
  tour Samples.mixed_graph (VRef 0%nat) 10 0 = Ok [0%nat; 2%nat] /\
  secondary_items Samples.mixed_graph Samples.mixed = [VRef 2%nat].
Proof. split; vm_compute; reflexivity. Qed.

(** * Further properties *)

(** ** One classification step, in full *)

Lemma dict_alter_absent f k d :
  dict_contains k d = false -> dict_alter f k d = d.
Proof.
  induction d as [|[k' b] d IH]; simpl; [reflexivity|].
  destruct (py_eq k' k); simpl; [discriminate|]. intros H. rewrite IH; auto.
Qed.

Lemma dict_alter_app f k d d' :
  dict_contains k d = false ->
  dict_alter f k (d ++ d') = d ++ dict_alter f k d'.
Proof.
  induction d as [|[k' b] d IH]; simpl; [reflexivity|].
  destruct (py_eq k' k); simpl; [discriminate|]. intros H. rewrite IH; auto.
Qed.

(** A counted object either updates the bucket that its type has, or adds
    at the end a bucket with count 1 and its record. *)
Lemma classify_step o ty a a' :
  ifc_type_of o = Some ty -> classify o a = Ok a' ->
  hashable ty = true /\
  a' = if dict_contains ty a
       then dict_alter (fun b => append_instance (make_instance_info o)
                                   (incr_count b)) ty a
       else a ++ [(ty, {| count := 1; instances := [make_instance_info o] |})].
Proof.
  intros Hty. unfold classify. rewrite Hty. unfold record_instance.
  destruct (hashable ty) eqn:Hh; [|discriminate]. intros [= <-].
  split; [reflexivity|]. rewrite dict_alter_alter.
  destruct (dict_contains ty a) eqn:Hc; simpl; [reflexivity|].
  unfold dict_add. rewrite dict_alter_app by exact Hc. simpl.
  rewrite py_eq_refl by exact Hh. reflexivity.
Qed.

Lemma keys_dict_alter f k d : keys (dict_alter f k d) = keys d.
Proof.
  unfold keys. induction d as [|[k' b] d IH]; simpl; [reflexivity|].
  destruct (py_eq k' k); simpl; [reflexivity|]. rewrite IH. reflexivity.
Qed.

Lemma dict_contains_keys k d :
  dict_contains k d = existsb (fun k' => py_eq k' k) (keys d).
Proof.
  unfold dict_contains, keys. induction d as [|[k' b] d IH]; simpl; congruence.
Qed.

Lemma classify_keys o ty a a' :
  ifc_type_of o = Some ty -> classify o a = Ok a' ->
  keys a' = note_type (keys a) ty.
Proof.
  intros Hty E. destruct (classify_step o ty a a' Hty E) as (_ & ->).
  unfold note_type. rewrite <- dict_contains_keys.
  destruct (dict_contains ty a).
  - apply keys_dict_alter.
  - unfold keys. rewrite map_app. reflexivity.
Qed.

Lemma aggregate_keys h ls : forall a a',
  aggregate h ls a = Ok a' ->
  keys a' = fold_left note_type (types_of h ls) (keys a).
Proof.
  unfold aggregate.
  induction ls as [|l ls IH]; intros a a'; simpl; [intros [= <-]; reflexivity|].
  intros E. apply bind_Ok in E as (a1 & E1 & E2).
  rewrite (IH a1 a' E2), fold_left_app. f_equal.
  unfold classify_at in E1. destruct (h !! l) as [o|]; [|injection E1 as <-; reflexivity].
  destruct (ifc_type_of o) as [ty|] eqn:Hty; simpl.
  - exact (classify_keys o ty a a1 Hty E1).
  - rewrite classify_unclassified in E1 by exact Hty. injection E1 as <-.
    reflexivity.
Qed.

(** ** The sum of the counts *)

Lemma total_instances_from z d :
  fold_left (fun acc kv => acc + count (snd kv)) d z = z + total_instances d.
Proof.
  unfold total_instances. revert z.
  induction d as [|kv d IH]; intros z; simpl; [lia|].
  rewrite (IH (z + _)), (IH (0 + _)). lia.
Qed.

Lemma total_instances_cons kv d :
  total_instances (kv :: d) = count (snd kv) + total_instances d.
Proof.
  unfold total_instances at 1. simpl. rewrite total_instances_from. lia.
Qed.

Lemma total_instances_app d d' :
  total_instances (d ++ d') = total_instances d + total_instances d'.
Proof.
  induction d as [|kv d IH]; simpl; [reflexivity|].
  rewrite !total_instances_cons, IH. lia.
Qed.

Lemma total_instances_alter f k d :
  (forall b, count (f b) = count b + 1) ->
  dict_contains k d = true ->
  total_instances (dict_alter f k d) = total_instances d + 1.
Proof.
  intros Hf. induction d as [|[k' b] d IH]; simpl; [discriminate|].
  destruct (py_eq k' k); simpl; intros H; rewrite !total_instances_cons; simpl.
  - rewrite Hf. lia.
  - rewrite IH by exact H. lia.
Qed.

Lemma classify_total_instances o a a' :
  classify o a = Ok a' ->
  total_instances a' =
  total_instances a + match ifc_type_of o with Some _ => 1 | None => 0 end.
Proof.
  destruct (ifc_type_of o) as [ty|] eqn:Hty.
  - intros E. destruct (classify_step o ty a a' Hty E) as (_ & ->).
    destruct (dict_contains ty a) eqn:Hc.
    + apply total_instances_alter; [reflexivity|exact Hc].
    + rewrite total_instances_app. reflexivity.
  - rewrite classify_unclassified by exact Hty. intros [= <-]. lia.
Qed.

Lemma aggregate_total_instances h ls : forall a a',
  aggregate h ls a = Ok a' ->
  total_instances a' =
  total_instances a + Z.of_nat (length (List.filter (classifiable h) ls)).
Proof.
  unfold aggregate.
  induction ls as [|l ls IH]; intros a a'; simpl; [intros [= <-]; lia|].
  intros E. apply bind_Ok in E as (a1 & E1 & E2).
  rewrite (IH a1 a' E2). unfold classify_at in E1. unfold classifiable at 2.
  destruct (h !! l) as [o|]; [|injection E1 as <-; lia].
  rewrite (classify_total_instances o a a1 E1).
  destruct (ifc_type_of o); simpl length; lia.
Qed.

(** ** The keys of the dictionary *)

Lemma note_type_present seen ty ty' :
  existsb (fun k => py_eq k ty) seen = true ->
  existsb (fun k => py_eq k ty) (note_type seen ty') = true.
Proof.
  intros H. unfold note_type.
  destruct (existsb (fun k => py_eq k ty') seen); [exact H|].
  rewrite existsb_app, H. reflexivity.
Qed.

Lemma note_type_self seen ty :
  hashable ty = true ->
  existsb (fun k => py_eq k ty) (note_type seen ty) = true.
Proof.
  intros Hh. unfold note_type.
  destruct (existsb (fun k => py_eq k ty) seen) eqn:E; [exact E|].
  rewrite existsb_app. simpl. rewrite py_eq_refl by exact Hh.
  rewrite orb_true_r. reflexivity.
Qed.

Lemma fold_note_type_present tys : forall seen ty,
  existsb (fun k => py_eq k ty) seen = true ->
  existsb (fun k => py_eq k ty) (fold_left note_type tys seen) = true.
Proof.
  induction tys as [|ty' tys IH]; intros seen ty H; simpl; [exact H|].
  apply IH, note_type_present, H.
Qed.

Lemma fold_note_type_all tys : forall seen,
  Forall (fun ty => hashable ty = true) tys ->
  Forall (fun ty => existsb (fun k => py_eq k ty)
                      (fold_left note_type tys seen) = true) tys.
Proof.
  induction tys as [|ty tys IH]; intros seen Hh; [constructor|].
  apply Forall_cons in Hh as [Hty Hh]. simpl. constructor.
  - apply fold_note_type_present, note_type_self, Hty.
  - apply IH, Hh.
Qed.

Lemma fold_note_type_known tys : forall seen,
  Forall (fun ty => existsb (fun k => py_eq k ty) seen = true) tys ->
  fold_left note_type tys seen = seen.
Proof.
  induction tys as [|ty tys IH]; intros seen H; simpl; [reflexivity|].
  apply Forall_cons in H as [Hty H]. unfold note_type at 2. rewrite Hty.
  apply IH, H.
Qed.

Lemma keys_distinct_snoc ks ty :
  keys_distinct ks ->
  existsb (fun k => py_eq k ty) ks = false ->
  keys_distinct (ks ++ [ty]).
Proof.
  induction ks as [|k ks IH]; simpl; [tauto|].
  intros [Hk Hks] E. apply orb_false_iff in E as [Ek E].
  split; [|apply IH; assumption].
  intros k' Hin. apply in_app_or in Hin as [Hin|[<-|[]]]; auto.
Qed.

Lemma note_type_distinct ks ty :
  keys_distinct ks -> keys_distinct (note_type ks ty).
Proof.
  intros H. unfold note_type.
  destruct (existsb (fun k => py_eq k ty) ks) eqn:E; [exact H|].
  apply keys_distinct_snoc; assumption.
Qed.

Lemma fold_note_type_distinct tys : forall ks,
  keys_distinct ks -> keys_distinct (fold_left note_type tys ks).
Proof.
  induction tys as [|ty tys IH]; intros ks H; simpl; [exact H|].
  apply IH, note_type_distinct, H.
Qed.

Lemma aggregate_hashable h ls : forall a a',
  aggregate h ls a = Ok a' ->
  Forall (fun ty => hashable ty = true) (types_of h ls).
Proof.
  unfold aggregate.
  induction ls as [|l ls IH]; intros a a'; simpl; [constructor|].
  intros E. apply bind_Ok in E as (a1 & E1 & E2).
  apply Forall_app. split; [|exact (IH a1 a' E2)].
  unfold classify_at in E1. destruct (h !! l) as [o|]; [|constructor].
  destruct (ifc_type_of o) as [ty|] eqn:Hty; [|constructor].
  constructor; [|constructor]. exact (proj1 (classify_step o ty a a1 Hty E1)).
Qed.

(** X1.  The keys of the returned dictionary are the types of the counted
    objects that the call enters, each where it is first met, after the
    keys that the dictionary had. *)
Theorem keys_in_order_met h data a M d a' :
  extract_ifc_types h data a M d = Ok a' ->
  exists t,
    tour h data M d = Ok t /\
    keys a' = fold_left note_type (types_of h t) (keys (default [] a)).
Proof.
  intros E. destruct (extract_tour h data a M d a' E) as (t & Et & Ea).
  exists t. split; [exact Et|].
  rewrite (aggregate_keys h t _ a' Ea). destruct a; reflexivity.
Qed.

Lemma keys_in_order_met_witness :
  exists t,
    tour Scenario.graph (VRef 0%nat) 10 0 = Ok t /\
    keys Samples.returned =
    fold_left note_type (types_of Scenario.graph t) (keys (default [] None)).
Proof.
  apply (keys_in_order_met Scenario.graph (VRef 0%nat) None 10 0).
  vm_compute. reflexivity.
Defined.

Lemma fold_note_type_In tys : forall seen k,
  In k (fold_left note_type tys seen) -> In k seen \/ In k tys.
Proof.
  induction tys as [|ty tys IH]; intros seen k; simpl; [tauto|].
  intros H. apply IH in H as [H|H]; [|tauto].
  unfold note_type in H. destruct (existsb _ seen); [tauto|].
  apply in_app_or in H as [H|[<-|[]]]; tauto.
Qed.

Lemma In_types_of h ls ty :
  In ty (types_of h ls) <->
  exists l o, In l ls /\ h !! l = Some o /\ ifc_type_of o = Some ty.
Proof.
  unfold types_of. rewrite in_flat_map. split.
  - intros (l & Hl & H). destruct (h !! l) as [o|] eqn:El; [|contradiction].
    destruct (ifc_type_of o) as [ty'|] eqn:Hty; [|contradiction].
    destruct H as [<-|[]]. eauto.
  - intros (l & o & Hl & El & Hty). exists l. split; [exact Hl|].
    rewrite El, Hty. left; reflexivity.
Qed.

Lemma classify_well_formed (Q := fun kv : value * bucket =>
    truthy (fst kv) = true /\ fst kv <> VStr MESH /\
    1 <= count (snd kv) /\ instances (snd kv) <> []) o a a' :
  Forall Q a -> classify o a = Ok a' -> Forall Q a'.
Proof.
  intros Ha E. destruct (ifc_type_of o) as [ty|] eqn:Hty.
  - destruct (classify_step o ty a a' Hty E) as (_ & ->).
    apply ifc_type_of_Some in Hty as (_ & Ht & Hm).
    destruct (dict_contains ty a).
    + apply dict_alter_Forall; [|exact Ha].
      intros k b (H1 & H2 & H3 & H4). unfold Q; simpl in *.
      split; [exact H1|]. split; [exact H2|]. split; [lia|].
      destruct (instances b); discriminate.
    + apply Forall_app. split; [exact Ha|]. constructor; [|constructor].
      unfold Q; simpl. split; [exact Ht|]. split; [|split; [lia|discriminate]].
      intros ->. simpl in Hm. discriminate.
  - rewrite classify_unclassified in E by exact Hty. injection E as <-. exact Ha.
Qed.

(** X2.  In a dictionary returned by a call that was given none, no two
    keys are equal, every key is true and is not the geometry mesh, and
    every bucket has a count of at least 1 and at least one instance. *)
Theorem returned_dictionary_well_formed h data M d a' :
  extract_ifc_types h data None M d = Ok a' ->
  keys_distinct (keys a') /\
  Forall (fun kv => truthy (fst kv) = true /\ fst kv <> VStr MESH /\
                    1 <= count (snd kv) /\ instances (snd kv) <> []) a'.
Proof.
  intros E. destruct (extract_tour h data None M d a' E) as (t & _ & Ea).
  split.
  - rewrite (aggregate_keys h t [] a' Ea). apply fold_note_type_distinct.
    exact I.
  - revert Ea. apply for_each_invariant; [|constructor].
    intros l s s' _ Hs. unfold classify_at.
    destruct (h !! l) as [o|]; [|intros [= <-]; exact Hs].
    apply classify_well_formed, Hs.
Qed.

Lemma returned_dictionary_well_formed_witness :
  keys_distinct (keys Samples.returned) /\
  Forall (fun kv => truthy (fst kv) = true /\ fst kv <> VStr MESH /\
                    1 <= count (snd kv) /\ instances (snd kv) <> [])
    Samples.returned.
Proof.
  apply (returned_dictionary_well_formed Scenario.graph (VRef 0%nat) 10 0).
  vm_compute. reflexivity.
Defined.

(** X3.  A second call on the same graph that is given the dictionary of
    the first adds every instance once more: the sum of the counts
    doubles, and the keys and their order stay. *)
Theorem reusing_the_dictionary_doubles h data M a1 a2 :
  extract_ifc_types h data None M 0 = Ok a1 ->
  extract_ifc_types h data (Some a1) M 0 = Ok a2 ->
  total_instances a2 = 2 * total_instances a1 /\ keys a2 = keys a1.
Proof.
  intros E1 E2.
  destruct (extract_tour h data None M 0 a1 E1) as (t & Et & Ea1).
  destruct (extract_tour h data (Some a1) M 0 a2 E2) as (t' & Et' & Ea2).
  assert (t' = t) by congruence. subst t'. simpl in Ea1, Ea2. split.
  - rewrite (aggregate_total_instances h t a1 a2 Ea2).
    rewrite (aggregate_total_instances h t [] a1 Ea1).
    change (total_instances []) with 0. lia.
  - rewrite (aggregate_keys h t a1 a2 Ea2). apply fold_note_type_known.
    rewrite (aggregate_keys h t [] a1 Ea1). apply fold_note_type_all.
    exact (aggregate_hashable h t [] a1 Ea1).
Qed.

Lemma reusing_the_dictionary_doubles_witness :
  total_instances
    [(VStr "Wall", {| count := 30; instances :=
        repeat (Samples.sample "w") 30 |})] =
  2 * total_instances
    [(VStr "Wall", {| count := 15; instances :=
        repeat (Samples.sample "w") 15 |})] /\
  keys [(VStr "Wall", {| count := 30; instances :=
        repeat (Samples.sample "w") 30 |})] =
  keys [(VStr "Wall", {| count := 15; instances :=
        repeat (Samples.sample "w") 15 |})].
Proof.
  apply (reusing_the_dictionary_doubles Samples.cyclic (VRef 0%nat) 3);
    vm_compute; reflexivity.
Defined.

(** X4.  The total that the summary prints for a returned dictionary is
    the total of the dictionary the call was given plus the number of
    times the call entered a counted object. *)
Theorem summary_counts_the_visits h data a M d a' :
  extract_ifc_types h data a M d = Ok a' ->
  exists t,
    tour h data M d = Ok t /\
    summary_instances (display_results a') =
    total_instances (default [] a) +
    Z.of_nat (length (List.filter (classifiable h) t)).
Proof.
  intros E. destruct (extract_tour h data a M d a' E) as (t & Et & Ea).
  exists t. split; [exact Et|]. simpl.
  rewrite (aggregate_total_instances h t _ a' Ea). destruct a; reflexivity.
Qed.

Lemma summary_counts_the_visits_witness :
  exists t,
    tour Scenario.graph (VRef 0%nat) 10 0 = Ok t /\
    summary_instances (display_results Samples.returned) =
    total_instances (default [] None) +
    Z.of_nat (length (List.filter (classifiable Scenario.graph) t)).
Proof.
  apply (summary_counts_the_visits Scenario.graph (VRef 0%nat) None 10 0).
  vm_compute. reflexivity.
Defined.

(** X5.  A larger [max_depth] loses no type: every key of the dictionary
    returned with [max_depth = M] is a key of the one returned with a
    larger bound. *)
Theorem larger_bound_keeps_the_types h data M M' a a' :
  M <= M' ->
  extract_ifc_types h data None M 0 = Ok a ->
  extract_ifc_types h data None M' 0 = Ok a' ->
  forall k, In k (keys a) -> dict_contains k a' = true.
Proof.
  intros HM E E' k Hk.
  destruct (extract_tour h data None M 0 a E) as (t & Et & Ea).
  destruct (extract_tour h data None M' 0 a' E') as (t' & Et' & Ea').
  simpl in Ea, Ea'.
  rewrite (aggregate_keys h t [] a Ea) in Hk.
  apply fold_note_type_In in Hk as [[]|Hk].
  apply In_types_of in Hk as (l & o & Hl & El & Hty).
  assert (Hl' : In l t').
  { apply (tour_reach h data M' 0 t' Et').
    apply (tour_reach h data M 0 t Et) in Hl as (n & Hn & Hr).
    exists n. split; [lia|exact Hr]. }
  assert (Hk' : In k (types_of h t')).
  { apply In_types_of. eauto. }
  rewrite dict_contains_keys, (aggregate_keys h t' [] a' Ea').
  pose proof (fold_note_type_all (types_of h t') []
                (aggregate_hashable h t' [] a' Ea')) as Hall.
  rewrite Forall_forall in Hall. apply Hall, list_elem_of_In, Hk'.
Qed.

Lemma larger_bound_keeps_the_types_witness :
  dict_contains (VStr "Door") Samples.returned = true.
Proof.
  apply (larger_bound_keeps_the_types Scenario.graph (VRef 0%nat) 1 10
           Samples.within_one Samples.returned);
    [lia|vm_compute; reflexivity|vm_compute; reflexivity
    |right; left; reflexivity].
Defined.

(** ** Trees within the depth bound *)

Section Shallow.
Variable h : heap.

Lemma analyze_elements_ext_child {S} (r1 r2 : value -> S -> outcome S) o s :
  (forall c s, child o c -> r1 c s = r2 c s) ->
  analyze_elements r1 o s = analyze_elements r2 o s.
Proof.
  intros E. unfold analyze_elements.
  destruct (getattr o "elements") as [els|] eqn:E1; [|reflexivity].
  destruct (truthy els) eqn:E2; [|reflexivity].
  destruct (py_iter els) as [items|] eqn:E3; [|reflexivity].
  apply for_each_ext. intros c t Hc. apply E. left. exists els, items. tauto.
Qed.

Lemma check_other_collections_ext_child {S}
    (r1 r2 : value -> S -> outcome S) o s :
  (forall c s, child o c -> r1 c s = r2 c s) ->
  check_other_collections h r1 o s = check_other_collections h r2 o s.
Proof.
  intros E. rewrite !check_other_collections_items. apply for_each_ext.
  intros c t Hc. apply E. right.
  apply secondary_items_In in Hc as (name & items & H1 & H2 & H3 & _).
  exists name, items. tauto.
Qed.

Lemma shallow_extract n data :
  shallow h n data ->
  forall a M d M' d',
    Z.of_nat n <= M - d + 1 -> Z.of_nat n <= M' - d' + 1 ->
    extract_ifc_types h data a M d = extract_ifc_types h data a M' d'.
Proof.
  induction 1 as [n data Hd|n data o Hd Hc IH]; intros a M d M' d' HM HM';
    rewrite (extract_ifc_types_eq h data a M d),
            (extract_ifc_types_eq h data a M' d'); cbv zeta;
    unfold extract_body; rewrite Hd.
  - destruct (M <? d), (M' <? d'); reflexivity.
  - destruct (Z.ltb_spec M d); [lia|]. destruct (Z.ltb_spec M' d'); [lia|].
    destruct (classify o _) as [a1| |]; simpl; try reflexivity.
    assert (E : forall c s, child o c ->
              extract_ifc_types h c (Some s) M (d + 1) =
              extract_ifc_types h c (Some s) M' (d' + 1)).
    { intros c s Hcc. apply (IH c Hcc); lia. }
    rewrite (analyze_elements_ext_child _ _ o a1 E).
    destruct (analyze_elements _ o a1) as [a2| |]; simpl; try reflexivity.
    apply check_other_collections_ext_child, E.
Qed.
End Shallow.

(** X6.  On a tree of height at most [n] the bound plays no part once it
    leaves room for [n] levels: all such calls return the same. *)
Theorem bound_beyond_height_is_idle h n data a M M' :
  shallow h n data ->
  Z.of_nat n <= M + 1 -> Z.of_nat n <= M' + 1 ->
  extract_ifc_types h data a M 0 = extract_ifc_types h data a M' 0.
Proof. intros Hs HM HM'. apply (shallow_extract h n data Hs); lia. Qed.

Lemma mesh_graph_shallow : shallow Samples.mesh_graph 2 (VRef 0%nat).
Proof.
  apply (shallow_node _ 1 _ Samples.mesh_parent); [reflexivity|].
  intros c [(els & items & E1 & _ & E3 & Hc)|(name & items & Hin & _ & Hc)].
  - injection E1 as <-. injection E3 as <-. destruct Hc as [<-|[]].
    apply (shallow_node _ 0 _ Samples.door); [reflexivity|].
    intros c [(els & items & E1 & _)|(name & items & Hin & _)].
    + discriminate.
    + destruct Hin as [Hin|[]]. discriminate.
  - destruct Hin as [Hin|[]]. injection Hin as <- <-. destruct Hc as [<-|[]].
    apply (shallow_node _ 0 _ Samples.door); [reflexivity|].
    intros c [(els & items & E1 & _)|(name & items & Hin & _)].
    + discriminate.
    + destruct Hin as [Hin|[]]. discriminate.
Qed.

Lemma bound_beyond_height_is_idle_witness :
  extract_ifc_types Samples.mesh_graph (VRef 0%nat) None 1 0 =
  extract_ifc_types Samples.mesh_graph (VRef 0%nat) None 10 0.
Proof.
  apply (bound_beyond_height_is_idle Samples.mesh_graph 2);
    [exact mesh_graph_shallow|lia|lia].
Defined.

(** ** The second walk of [elements] *)

Lemma assoc_split name d v :
  assoc name d = Some v -> exists pre post, d = pre ++ (name, v) :: post.
Proof.
  induction d as [|[k w] d IH]; simpl; [discriminate|].
  destruct (String.eqb_spec k name) as [->|_].
  - intros [= ->]. exists [], d. reflexivity.
  - intros H. destruct (IH H) as (pre & post & ->).
    exists ((k, w) :: pre), post. reflexivity.
Qed.

(** X7.  When [elements] is a list stored in the [__dict__] of a node, a
    call on the node within the depth bound classifies the node, walks the
    items of [elements], and then walks the items picked from [__dict__],
    among which the objects of [elements] come again. *)
Theorem elements_walked_twice h l o items a M d :
  h !! l = Some o ->
  assoc "elements" (obj_dict o) = Some (VList items) ->
  d <= M ->
  let recurse := fun x a' => extract_ifc_types h x (Some a') M (d + 1) in
  (exists before after,
     secondary_items h o =
     before ++ List.filter (has_dict h) items ++ after) /\
  extract_ifc_types h (VRef l) (Some a) M d =
    (try a0 := classify o a in
     try a1 := for_each recurse items a0 in
     for_each recurse (secondary_items h o) a1).
Proof.
  intros Hl Hel Hd recurse. split.
  - destruct (assoc_split _ _ _ Hel) as (pre & post & Hsplit).
    unfold secondary_items. rewrite Hsplit, flat_map_app. simpl.
    eexists _, _. reflexivity.
  - rewrite extract_ifc_types_eq. cbv zeta. unfold recurse.
    destruct (Z.ltb_spec M d); [lia|].
    unfold extract_body, get_dict. rewrite Hl.
    destruct (classify o a) as [a0| |]; try reflexivity. cbn [bind].
    unfold analyze_elements, getattr. rewrite Hel.
    destruct items as [|x items]; cbn [truthy py_iter bind].
    + simpl for_each. cbn [bind]. apply check_other_collections_items.
    + destruct (for_each _ (x :: items) a0); try reflexivity.
      cbn [bind]. apply check_other_collections_items.
Qed.

Lemma elements_walked_twice_witness :
  (exists before after,
     secondary_items Scenario.graph Scenario.root =
     before ++
     List.filter (has_dict Scenario.graph)
       [VRef 1%nat; VRef 2%nat; VRef 3%nat] ++ after) /\
  extract_ifc_types Scenario.graph (VRef 0%nat) (Some []) 10 0 =
    (try a0 := classify Scenario.root [] in
     try a1 := for_each
                 (fun x a' => extract_ifc_types Scenario.graph x (Some a') 10 (0 + 1))
                 [VRef 1%nat; VRef 2%nat; VRef 3%nat] a0 in
     for_each
       (fun x a' => extract_ifc_types Scenario.graph x (Some a') 10 (0 + 1))
       (secondary_items Scenario.graph Scenario.root) a1).
Proof.
  apply (elements_walked_twice Scenario.graph 0%nat Scenario.root
           [VRef 1%nat; VRef 2%nat; VRef 3%nat] [] 10 0);
    [reflexivity|reflexivity|lia].
Defined.

(** ** What each bucket holds *)

Lemma py_eq_euclid a b c :
  hashable a = true -> hashable b = true ->
  py_eq a c = true -> py_eq b c = true -> py_eq a b = true.
Proof.
  destruct a as [|x|x|x|x|x], b as [|y|y|y|y|y], c as [|z|z|z|z|z];
    simpl; try discriminate; try reflexivity; intros _ _;
    try (destruct x, y, z; simpl; (discriminate || reflexivity));
    try (destruct x, y; simpl; intros; (discriminate || reflexivity || lia));
    rewrite ?Z.eqb_eq, ?String.eqb_eq, ?Nat.eqb_eq;
    try (destruct x; intros; subst; simpl; rewrite ?Z.eqb_eq; lia);
    try (destruct y; intros; subst; simpl; rewrite ?Z.eqb_eq; lia);
    try (destruct z; intros; subst; simpl; rewrite ?Z.eqb_eq; lia);
    intros; congruence.
Qed.

Lemma dict_alter_In f ty a k b' :
  keys_distinct (keys a) ->
  Forall (fun k => hashable k = true) (keys a) ->
  In (k, b') (dict_alter f ty a) ->
  (py_eq k ty = true /\ exists b, In (k, b) a /\ b' = f b) \/
  (py_eq k ty = false /\ In (k, b') a).
Proof.
  induction a as [|[k1 b1] a IH]; simpl; [tauto|].
  intros [Hk1 Hd] Hh. apply Forall_cons in Hh as [Hh1 Hh].
  destruct (py_eq k1 ty) eqn:E1; simpl.
  - intros [[= <- <-]|Hin].
    + left. split; [exact E1|]. exists b1. tauto.
    + right. split; [|tauto].
      assert (Hk : In k (keys a)) by (apply (in_map fst _ (k, b')), Hin).
      destruct (py_eq k ty) eqn:E; [|reflexivity].
      rewrite Forall_forall in Hh.
      assert (Hkk : py_eq k1 k = true).
      { apply (py_eq_euclid k1 k ty); auto. apply Hh, list_elem_of_In, Hk. }
      rewrite (Hk1 k Hk) in Hkk. discriminate.
  - intros [[= <- <-]|Hin].
    + right. tauto.
    + destruct (IH Hd Hh Hin) as [(H1 & b & H2 & H3)|(H1 & H2)].
      * left. split; [exact H1|]. exists b. tauto.
      * right. tauto.
Qed.

Lemma of_type_snoc h k t l :
  of_type h k (t ++ [l]) = of_type h k t ++ (if has_type h k l then [l] else []).
Proof. unfold of_type. rewrite List.filter_app. reflexivity. Qed.

Lemma filter_none {A} (f : A -> bool) l :
  (forall x, In x l -> f x = false) -> List.filter f l = [].
Proof.
  induction l as [|x l IH]; intros H; simpl; [reflexivity|].
  rewrite (H x (or_introl eq_refl)). apply IH. intros y Hy. apply H. right; exact Hy.
Qed.

Lemma records_snoc h t l o :
  h !! l = Some o -> records h (t ++ [l]) = records h t ++ [make_instance_info o].
Proof.
  intros Hl. unfold records. rewrite flat_map_app. simpl. rewrite Hl. reflexivity.
Qed.

Lemma dict_contains_false k d :
  dict_contains k d = false -> forall k' b, In (k', b) d -> py_eq k' k = false.
Proof.
  induction d as [|[k1 b1] d IH]; simpl; [tauto|].
  intros H k' b. apply orb_false_iff in H as [H1 H2].
  intros [[= <- <-]|Hin]; [exact H1|]. exact (IH H2 k' b Hin).
Qed.

Lemma dict_contains_true k d :
  dict_contains k d = true -> exists k' b, In (k', b) d /\ py_eq k' k = true.
Proof.
  induction d as [|[k1 b1] d IH]; simpl; [discriminate|].
  destruct (py_eq k1 k) eqn:E; simpl.
  - intros _. exists k1, b1. tauto.
  - intros H. destruct (IH H) as (k' & b & Hin & Hk). exists k', b. tauto.
Qed.

Lemma holds_visits_step h t a l a1 :
  holds_visits h t a -> classify_at h l a = Ok a1 ->
  holds_visits h (t ++ [l]) a1.
Proof.
  intros (I1 & I2 & I3 & I4). unfold classify_at.
  destruct (h !! l) as [o|] eqn:El.
  2:{ intros [= <-]. split; [exact I1|]. split; [exact I2|]. split.
      - intros k b Hin. rewrite of_type_snoc. unfold has_type. rewrite El.
        rewrite app_nil_r. exact (I3 k b Hin).
      - intros l' o' ty Hl'. apply in_app_or in Hl' as [Hl'|[<-|[]]].
        + exact (I4 l' o' ty Hl').
        + congruence. }
  destruct (ifc_type_of o) as [ty|] eqn:Hty.
  2:{ rewrite classify_unclassified by exact Hty.
      intros [= <-]. split; [exact I1|]. split; [exact I2|]. split.
      - intros k b Hin. rewrite of_type_snoc. unfold has_type. rewrite El, Hty.
        rewrite app_nil_r. exact (I3 k b Hin).
      - intros l' o' ty Hl'. apply in_app_or in Hl' as [Hl'|[<-|[]]].
        + exact (I4 l' o' ty Hl').
        + congruence. }
  intros E. destruct (classify_step o ty a a1 Hty E) as (Hh & ->).
  destruct (dict_contains ty a) eqn:Hc.
  - split; [rewrite keys_dict_alter; exact I1|].
    split; [rewrite keys_dict_alter; exact I2|]. split.
    + intros k b' Hin. rewrite of_type_snoc. unfold has_type.
      rewrite El, Hty.
      apply (dict_alter_In _ ty a k b' I1 I2) in Hin
        as [(Hk & b & Hin & ->)|(Hk & Hin)]; rewrite Hk.
      * destruct (I3 k b Hin) as (H1 & H2). simpl.
        rewrite (records_snoc h _ l o El), length_app, H1, H2. simpl.
        split; [reflexivity|lia].
      * rewrite app_nil_r. exact (I3 k b' Hin).
    + intros l' o' ty' Hl' El' Hty'. rewrite dict_contains_keys, keys_dict_alter.
      rewrite <- dict_contains_keys.
      apply in_app_or in Hl' as [Hl'|[<-|[]]].
      * exact (I4 l' o' ty' Hl' El' Hty').
      * congruence.
  - assert (Hnone : of_type h ty t = []).
    { apply filter_none. intros l' Hin'.
      unfold has_type. destruct (h !! l') as [o'|] eqn:El'; [|reflexivity].
      destruct (ifc_type_of o') as [ty'|] eqn:Hty'; [|reflexivity].
      destruct (py_eq ty ty') eqn:Ett; [|reflexivity].
      pose proof (I4 l' o' ty' Hin' El' Hty') as Hc'.
      apply dict_contains_true in Hc' as (k & b & Hin & Hk).
      pose proof (dict_contains_false ty a Hc k b Hin) as Hk'.
      rewrite Forall_forall in I2.
      assert (Hkh : hashable k = true).
      { apply I2, list_elem_of_In. exact (in_map fst _ (k, b) Hin). }
      rewrite (py_eq_euclid k ty ty' Hkh Hh Hk Ett) in Hk'. discriminate. }
    split; [|split; [|split]].
    + unfold keys. rewrite map_app. apply keys_distinct_snoc; [exact I1|].
      rewrite <- dict_contains_keys. exact Hc.
    + unfold keys. rewrite map_app. apply Forall_app. split; [exact I2|].
      constructor; [exact Hh|constructor].
    + intros k b Hin. rewrite of_type_snoc. unfold has_type.
      rewrite El, Hty.
      apply in_app_or in Hin as [Hin|[[= <- <-]|[]]].
      * rewrite (dict_contains_false ty a Hc k b Hin), app_nil_r.
        exact (I3 k b Hin).
      * rewrite (py_eq_refl ty Hh), Hnone. simpl. rewrite El. split; reflexivity.
    + intros l' o' ty' Hl' El' Hty'. unfold dict_contains.
      rewrite existsb_app. apply orb_true_iff.
      apply in_app_or in Hl' as [Hl'|[<-|[]]].
      * left. exact (I4 l' o' ty' Hl' El' Hty').
      * right. simpl. assert (ty' = ty) by congruence. subst ty'.
        rewrite (py_eq_refl ty Hh). reflexivity.
Qed.

Lemma holds_visits_aggregate h ls : forall t a a',
  holds_visits h t a -> aggregate h ls a = Ok a' -> holds_visits h (t ++ ls) a'.
Proof.
  unfold aggregate.
  induction ls as [|l ls IH]; intros t a a' Ha; simpl.
  - intros [= <-]. rewrite app_nil_r. exact Ha.
  - intros E. apply bind_Ok in E as (a1 & E1 & E2).
    replace (t ++ l :: ls) with ((t ++ [l]) ++ ls) by (rewrite <- app_assoc; reflexivity).
    apply (IH _ a1 a'); [|exact E2]. exact (holds_visits_step h t a l a1 Ha E1).
Qed.

Lemma buckets_hold_the_visits_aux h data M d a' :
  extract_ifc_types h data None M d = Ok a' ->
  exists t,
    tour h data M d = Ok t /\
    forall k b, In (k, b) a' ->
      instances b = records h (of_type h k t) /\
      count b = Z.of_nat (length (of_type h k t)).
Proof.
  intros E. destruct (extract_tour h data None M d a' E) as (t & Et & Ea).
  exists t. split; [exact Et|].
  assert (H0 : holds_visits h [] []).
  { split; [exact I|]. split; [constructor|]. split; [intros k b []|].
    intros l o ty []. }
  exact (proj1 (proj2 (proj2 (holds_visits_aggregate h t [] [] a' H0 Ea)))).
Qed.

(** X8.  In a dictionary returned by a call that was given none, the
    bucket of a key holds the records of the objects counted under that
    key, one for each time the call enters such an object and in the order
    of these entries, and its count is their number. *)
Theorem buckets_hold_the_visits h data M d a' :
  extract_ifc_types h data None M d = Ok a' ->
  exists t,
    tour h data M d = Ok t /\
    forall k b, In (k, b) a' ->
      instances b = records h (of_type h k t) /\
      count b = Z.of_nat (length (of_type h k t)).
Proof. apply buckets_hold_the_visits_aux. Qed.

Lemma buckets_hold_the_visits_witness :
  exists t,
    tour Scenario.graph (VRef 0%nat) 10 0 = Ok t /\
    forall k b, In (k, b) Samples.returned ->
      instances b = records Scenario.graph (of_type Scenario.graph k t) /\
      count b = Z.of_nat (length (of_type Scenario.graph k t)).
Proof.
  apply (buckets_hold_the_visits Scenario.graph (VRef 0%nat) 10 0).
  vm_compute. reflexivity.
Defined.

(** ** The exported rows *)

Lemma flat_map_keys {B} (f : value * bucket -> list B) (g : value -> list B) a :
  (forall k b, In (k, b) a -> f (k, b) = g k) ->
  flat_map f a = flat_map g (keys a).
Proof.
  induction a as [|[k b] a IH]; intros H; simpl; [reflexivity|].
  rewrite (H k b) by (left; reflexivity). f_equal.
  apply IH. intros k' b' Hin. apply H. right; exact Hin.
Qed.

(** X9.  The export of a dictionary returned by a call that was given
    none has, after the header, one row for each time the call enters a
    counted object: the rows of a type together, the types in the order of
    the keys, and the rows of a type in the order of the entries. *)
Theorem export_lists_the_visits h data M d a' :
  extract_ifc_types h data None M d = Ok a' ->
  exists t,
    tour h data M d = Ok t /\
    export_to_csv a' =
    csv_header ::
    flat_map (fun k => map (csv_row k) (records h (of_type h k t))) (keys a').
Proof.
  intros E. destruct (buckets_hold_the_visits_aux h data M d a' E)
    as (t & Et & Hb).
  exists t. split; [exact Et|]. unfold export_to_csv. f_equal.
  apply flat_map_keys. intros k b Hin. rewrite (proj1 (Hb k b Hin)). reflexivity.
Qed.

Lemma export_lists_the_visits_witness :
  exists t,
    tour Scenario.graph (VRef 0%nat) 10 0 = Ok t /\
    export_to_csv Samples.returned =
    csv_header ::
    flat_map (fun k => map (csv_row k)
                         (records Scenario.graph (of_type Scenario.graph k t)))
      (keys Samples.returned).
Proof.
  apply (export_lists_the_visits Scenario.graph (VRef 0%nat) 10 0).
  vm_compute. reflexivity.
Defined.

Lemma consistent_total a :
  consistent a ->
  total_instances a =
  Z.of_nat (length (flat_map (fun '(ifc_type, info) =>
                                map (csv_row ifc_type) (instances info)) a)).
Proof.
  induction 1 as [|[k b] a Hb Ha IH]; [reflexivity|].
  rewrite total_instances_cons. simpl in *.
  rewrite length_app, length_map, Hb, IH. lia.
Qed.

(** X10.  Every exported row has five cells; and for a dictionary in which
    each count is the number of instances, the export has one header row
    and as many rows after it as the total that the summary prints. *)
Theorem export_agrees_with_summary a :
  Forall (fun row => length row = 5%nat) (export_to_csv a) /\
  (consistent a ->
   Z.of_nat (length (export_to_csv a)) =
   1 + summary_instances (display_results a)).
Proof.
  split.
  - unfold export_to_csv. constructor; [reflexivity|].
    apply Forall_forall. intros row Hrow. apply list_elem_of_In in Hrow.
    apply in_flat_map in Hrow as ([k b] & _ & Hrow).
    apply in_map_iff in Hrow as (i & <- & _). reflexivity.
  - intros Ha. unfold export_to_csv.
    change (summary_instances (display_results a)) with (total_instances a).
    rewrite (consistent_total a Ha). simpl length. lia.
Qed.

Lemma export_agrees_with_summary_witness :
  Forall (fun row => length row = 5%nat) (export_to_csv Samples.returned) /\
  Z.of_nat (length (export_to_csv Samples.returned)) =
  1 + summary_instances (display_results Samples.returned).
Proof.
  destruct (export_agrees_with_summary Samples.returned) as (H1 & H2).
  split; [exact H1|]. apply H2. repeat constructor.
Defined.

(** ** The result of [run] *)

(** X11.  On a graph of the minimal shape, once the data is received,
    [run] returns [None] exactly when no counted object is within 10
    recursive calls of the root; otherwise it returns the dictionary of the
    traversal, which is not empty. *)
Theorem run_returns_none_when_nothing_counted h data :
  well_shaped h ->
  (run_received h data = None <->
   forall l (k : nat), Z.of_nat k <= 10 -> reach h k data l ->
                       classifiable h l = false) /\
  (forall a, run_received h data = Some a ->
             extract_ifc_types h data None 10 0 = Ok a /\ a <> []).
Proof.
  intros Hh. unfold run_received, extract_ifc_types_default, default_max_depth.
  destruct (extract_ifc_types_total h Hh data None 10 0) as (a & E).
  rewrite E.
  destruct (extract_tour h data None 10 0 a E) as (t & Et & Ea). simpl in Ea.
  pose proof (aggregate_total_instances h t [] a Ea) as Htot.
  change (total_instances []) with 0 in Htot.
  split.
  - split.
    + intros Hnone l k Hk Hr.
      assert (a = []) by (destruct a; [reflexivity|discriminate]). subst a.
      change (total_instances []) with 0 in Htot.
      assert (Hl : In l t).
      { apply (tour_reach h data 10 0 t Et). exists k. split; [lia|exact Hr]. }
      destruct (classifiable h l) eqn:Hc; [|reflexivity].
      assert (Hf : In l (List.filter (classifiable h) t)).
      { apply filter_In. tauto. }
      destruct (List.filter (classifiable h) t); [destruct Hf|].
      simpl length in Htot. lia.
    + intros Hall.
      assert (Hf : List.filter (classifiable h) t = []).
      { apply filter_none. intros l Hl.
        apply (tour_reach h data 10 0 t Et) in Hl as (k & Hk & Hr).
        apply (Hall l k); [lia|exact Hr]. }
      rewrite <- aggregate_filter, Hf in Ea. injection Ea as <-. reflexivity.
  - intros a0 Ha0. destruct a as [|kv a]; [discriminate|].
    injection Ha0 as <-. split; [reflexivity|discriminate].
Qed.

Lemma run_returns_none_when_nothing_counted_witness :
  (run_received Scenario.graph (VRef 2%nat) = None <->
   forall l (k : nat), Z.of_nat k <= 10 -> reach Scenario.graph k (VRef 2%nat) l ->
                       classifiable Scenario.graph l = false) /\
  (extract_ifc_types Scenario.graph (VRef 0%nat) None 10 0 = Ok Samples.returned /\
   Samples.returned <> []).
Proof.
  assert (Hh : well_shaped Scenario.graph).
  { apply well_shaped_decide. vm_compute. reflexivity. }
  split.
  - exact (proj1 (run_returns_none_when_nothing_counted
                    Scenario.graph (VRef 2%nat) Hh)).
  - apply (proj2 (run_returns_none_when_nothing_counted
                    Scenario.graph (VRef 0%nat) Hh)).
    vm_compute. reflexivity.
Defined.

(** ** The listing *)

Lemma enumerate_fst {A} (l : list A) : forall s,
  map fst (enumerate s l) = seq s (length l).
Proof. induction l as [|x l IH]; intros s; simpl; [reflexivity|]. rewrite IH. reflexivity. Qed.

Lemma enumerate_snd {A} (l : list A) : forall s, map snd (enumerate s l) = l.
Proof. induction l as [|x l IH]; intros s; simpl; [reflexivity|]. rewrite IH. reflexivity. Qed.

Lemma enumerate_length {A} (l : list A) : forall s,
  length (enumerate s l) = length l.
Proof. induction l as [|x l IH]; intros s; simpl; [reflexivity|]. rewrite IH. reflexivity. Qed.

Lemma enumerate_succ {A} (l : list A) : forall s,
  map (fun p => (fst p + 1)%nat) (enumerate s l) = seq (s + 1) (length l).
Proof.
  induction l as [|x l IH]; intros s; simpl; [reflexivity|].
  rewrite IH. reflexivity.
Qed.

Lemma sorted_types_perm a : Permutation (sorted_types a) a.
Proof.
  unfold sorted_types, py_sorted.
  rewrite <- Permutation_rev, sort_by_perm, <- Permutation_rev. reflexivity.
Qed.

Lemma sorted_types_descending a : descending (sorted_types a).
Proof.
  unfold sorted_types, py_sorted, descending.
  apply (sorted_rev (fun x : value * bucket => count (snd x))), sort_by_sorted.
Qed.

Lemma listed_sorted l : forall s,
  descending l ->
  StronglySorted (fun x y => type_count y <= type_count x)
    (map (fun '(i, (ifc_type, info)) => lines_of_type i ifc_type info)
         (enumerate s l)).
Proof.
  unfold descending.
  induction l as [|[k b] l IH]; intros s Hl; simpl; [constructor|].
  apply StronglySorted_inv in Hl as [Hl Hb].
  constructor; [apply IH, Hl|].
  clear IH Hl. revert Hb. generalize (S s). simpl.
  induction l as [|[k' b'] l IH]; intros s' Hb; simpl; [constructor|].
  apply Forall_cons in Hb as [Hb' Hb]. constructor; [exact Hb'|]. apply IH, Hb.
Qed.

(** X12.  For a dictionary in which each count is the number of
    instances, the listing ranks the types from 1 in descending order of
    count, shows for each type at most five samples numbered from 1, and
    the count of a type is the number of its samples shown plus the number
    given as remaining. *)
Theorem listing_accounts_for_every_instance a :
  consistent a ->
  map type_no (listed (display_results a)) = seq 1 (length a) /\
  StronglySorted (fun x y => type_count y <= type_count x)
    (listed (display_results a)) /\
  Forall (fun e =>
            (length (type_samples e) <= 5)%nat /\
            map sample_no (type_samples e) = seq 1 (length (type_samples e)) /\
            type_count e =
            Z.of_nat (length (type_samples e)) + default 0 (type_more e))
    (listed (display_results a)).
Proof.
  intros Ha. unfold display_results; simpl. split; [|split].
  - rewrite map_map.
    rewrite (map_ext _ fst) by (intros [i [k b]]; reflexivity).
    rewrite enumerate_fst, (Permutation_length (sorted_types_perm a)).
    reflexivity.
  - apply listed_sorted, sorted_types_descending.
  - apply Forall_forall. intros e He. apply list_elem_of_In in He.
    apply in_map_iff in He as ([i [k b]] & <- & Hin).
    assert (Hb : count b = Z.of_nat (length (instances b))).
    { assert (Hkb : In (k, b) (sorted_types a)).
      { apply (in_map snd) in Hin. rewrite enumerate_snd in Hin. exact Hin. }
      unfold consistent in Ha. rewrite Forall_forall in Ha.
      apply (Ha (k, b)). apply list_elem_of_In.
      apply (Permutation_in _ (sorted_types_perm a)), Hkb. }
    unfold lines_of_type; simpl.
    rewrite !length_map, enumerate_length, length_firstn, map_map.
    rewrite (map_ext _ (fun p => (fst p + 1)%nat)) by (intros [j x]; reflexivity).
    rewrite enumerate_succ, length_firstn, Hb.
    split; [lia|]. split; [reflexivity|].
    destruct (Nat.ltb_spec 5 (length (instances b)));
      cbn -[Nat.min Z.of_nat Z.sub Z.add].
    + rewrite Nat.min_l by lia. lia.
    + rewrite Nat.min_r by lia. lia.
Qed.

Lemma listing_accounts_for_every_instance_witness :
  map type_no (listed (display_results Samples.returned)) =
    seq 1 (length Samples.returned) /\
  StronglySorted (fun x y => type_count y <= type_count x)
    (listed (display_results Samples.returned)) /\
  Forall (fun e =>
            (length (type_samples e) <= 5)%nat /\
            map sample_no (type_samples e) = seq 1 (length (type_samples e)) /\
            type_count e =
            Z.of_nat (length (type_samples e)) + default 0 (type_more e))
    (listed (display_results Samples.returned)).
Proof.
  apply (listing_accounts_for_every_instance Samples.returned).
  repeat constructor.
Defined.

(** ** Locators *)

(** ** Texts *)

Lemma is_hex_not_slash c : is_hex c = true -> is_slash c = false.
Proof.
  unfold is_slash. destruct (Ascii.eqb_spec c "/") as [->|]; [|reflexivity].
  vm_compute. discriminate.
Qed.

Lemma span_spec p s run rest :
  span p s = (run, rest) ->
  s = run ++ rest /\ Forall (fun c => p c = true) run /\
  match rest with [] => True | c :: _ => p c = false end.
Proof.
  revert run rest. induction s as [|c s IH]; intros run rest; simpl.
  - intros [= <- <-]. repeat split. constructor.
  - destruct (p c) eqn:Ec.
    + destruct (span p s) as [run' rest'] eqn:E. intros [= <- <-].
      destruct (IH run' rest' eq_refl) as (-> & H1 & H2).
      repeat split; [constructor; assumption|exact H2].
    + intros [= <- <-]. repeat split; [constructor|exact Ec].
Qed.

Lemma span_app p run rest :
  Forall (fun c => p c = true) run ->
  match rest with [] => True | c :: _ => p c = false end ->
  span p (run ++ rest) = (run, rest).
Proof.
  intros Hrun Hrest. induction Hrun as [|c run Hc Hrun IH]; simpl.
  - destruct rest as [|c rest]; [reflexivity|]. simpl. rewrite Hrest. reflexivity.
  - rewrite Hc, IH. reflexivity.
Qed.

Lemma strip_prefix_spec p s r : strip_prefix p s = Some r -> s = p ++ r.
Proof.
  revert s. induction p as [|a p IH]; intros s; simpl.
  - intros [= <-]. reflexivity.
  - destruct s as [|b s]; [discriminate|].
    destruct (Ascii.eqb_spec a b) as [->|]; [|discriminate].
    intros H. rewrite (IH s H). reflexivity.
Qed.

Lemma strip_prefix_app p s : strip_prefix p (p ++ s) = Some s.
Proof.
  induction p as [|a p IH]; simpl; [reflexivity|].
  rewrite Ascii.eqb_refl. exact IH.
Qed.

(** A literal made of a segment with no slash and a slash, against a text
    that starts with a segment with no slash and a slash. *)
Lemma strip_prefix_segment seg host rest :
  Forall (fun c => is_slash c = false) seg ->
  Forall (fun c => is_slash c = false) host ->
  strip_prefix (seg ++ ["/"%char]) (host ++ "/"%char :: rest) =
  if decide (seg = host) then Some rest else None.
Proof.
  intros Hseg. revert host.
  induction Hseg as [|a seg Ha Hseg IH]; intros host Hhost;
    destruct Hhost as [|b host Hb Hhost]; cbn [strip_prefix app].
  - rewrite Ascii.eqb_refl. reflexivity.
  - unfold is_slash in Hb. rewrite Ascii.eqb_sym, Hb.
    destruct (decide ([] = b :: host)); [discriminate|reflexivity].
  - unfold is_slash in Ha. rewrite Ha.
    destruct (decide (a :: seg = [])); [discriminate|reflexivity].
  - destruct (Ascii.eqb_spec a b) as [->|Hab].
    + rewrite (IH host Hhost).
      destruct (decide (seg = host)) as [->|Hne].
      * rewrite decide_True by reflexivity. reflexivity.
      * rewrite decide_False by congruence. reflexivity.
    + rewrite decide_False by congruence. reflexivity.
Qed.

Lemma rstrip_slash_snoc s : rstrip_slash (s ++ ["/"%char]) = rstrip_slash s.
Proof.
  induction s as [|c s IH]; simpl; [reflexivity|]. rewrite IH. reflexivity.
Qed.

Lemma rstrip_slash_keeps x m :
  Forall (fun c => is_slash c = false) m -> m <> [] ->
  rstrip_slash (x ++ m) = x ++ m.
Proof.
  intros Hm Hne.
  assert (Hm' : rstrip_slash m = m).
  { clear Hne. induction Hm as [|c m Hc Hm IH]; simpl; [reflexivity|].
    rewrite IH, Hc. destruct m; reflexivity. }
  induction x as [|c x IH]; simpl; [exact Hm'|].
  rewrite IH. destruct (x ++ m) eqn:E; [|reflexivity].
  apply app_eq_nil in E as [_ ->]. contradiction.
Qed.

(** What [rstrip] takes away is at the end. *)
Lemma rstrip_slash_prefix s : exists t, s = rstrip_slash s ++ t.
Proof.
  induction s as [|c s (t & IH)]; simpl; [exists []; reflexivity|].
  destruct (rstrip_slash s) as [|d r] eqn:E.
  - destruct (is_slash c).
    + exists (c :: s). reflexivity.
    + exists t. simpl. rewrite IH at 1. reflexivity.
  - exists t. simpl. rewrite IH at 1. reflexivity.
Qed.

(** ** Searching *)

Lemma re_search_sound {A} (here : text -> option A) s x :
  re_search here s = Some x ->
  exists before found, s = before ++ found /\ here found = Some x.
Proof.
  induction s as [|c s IH]; simpl.
  - destruct (here []) eqn:E; [|discriminate]. intros [= <-]. exists [], []. auto.
  - destruct (here (c :: s)) eqn:E.
    + intros [= <-]. exists [], (c :: s). auto.
    + intros H. destruct (IH H) as (before & found & -> & Hf).
      exists (c :: before), found. auto.
Qed.

Lemma re_search_skip {A} (here : text -> option A) before s :
  (forall c t, is_slash c = false -> here (c :: t) = None) ->
  Forall (fun c => is_slash c = false) before ->
  re_search here (before ++ s) = re_search here s.
Proof.
  intros Hh Hb. induction Hb as [|c before Hc Hb IH]; simpl; [reflexivity|].
  rewrite (Hh c _ Hc). exact IH.
Qed.

Lemma project_model_here_slash c t :
  is_slash c = false -> project_model_here (c :: t) = None.
Proof.
  unfold is_slash, project_model_here.
  change (lit "/projects/") with ("/"%char :: lit "projects/").
  cbn [strip_prefix]. rewrite Ascii.eqb_sym. intros ->. reflexivity.
Qed.

Lemma id_here_slash marker c t :
  is_slash c = false -> id_here ("/"%char :: marker) (c :: t) = None.
Proof.
  unfold is_slash, id_here. cbn [strip_prefix]. rewrite Ascii.eqb_sym.
  intros ->. reflexivity.
Qed.

Lemma hex_run_app id rest :
  Forall (fun c => is_hex c = true) id -> id <> [] ->
  match rest with [] => True | c :: _ => is_hex c = false end ->
  hex_run (id ++ rest) = Some (id, rest).
Proof.
  intros Hid Hne Hrest. unfold hex_run. rewrite span_app by assumption.
  destruct id; [contradiction|reflexivity].
Qed.

Lemma host_after_found scheme host rest :
  host <> [] -> Forall (fun c => is_slash c = false) host ->
  match rest with [] => True | c :: _ => is_slash c = true end ->
  host_after scheme (lit "://" ++ host ++ rest) = Some (scheme ++ lit "://" ++ host).
Proof.
  intros Hne Hhost Hrest. unfold host_after. rewrite strip_prefix_app.
  rewrite span_app.
  - destruct host; [contradiction|reflexivity].
  - eapply Forall_impl; [exact Hhost|]. simpl. intros c ->. reflexivity.
  - destruct rest; [exact I|]. rewrite Hrest. reflexivity.
Qed.

Lemma match_server_found scheme host rest :
  scheme = lit "http" \/ scheme = lit "https" ->
  host <> [] -> Forall (fun c => is_slash c = false) host ->
  match rest with [] => True | c :: _ => is_slash c = true end ->
  match_server (scheme ++ lit "://" ++ host ++ rest) =
  Some (scheme ++ lit "://" ++ host).
Proof.
  intros [->| ->] Hne Hhost Hrest; unfold match_server.
  - rewrite strip_prefix_app.
    change (lit "://" ++ host ++ rest) with (":"%char :: lit "//" ++ host ++ rest)
      at 1.
    change (Ascii.eqb ":" "s") with false. cbv iota.
    apply host_after_found; assumption.
  - change (lit "https" ++ lit "://" ++ host ++ rest)
      with (lit "http" ++ "s"%char :: lit "://" ++ host ++ rest).
    rewrite strip_prefix_app. rewrite Ascii.eqb_refl.
    rewrite host_after_found by assumption. reflexivity.
Qed.

Lemma scheme_no_slash scheme :
  scheme = lit "http" \/ scheme = lit "https" ->
  Forall (fun c => is_slash c = false) (scheme ++ [":"%char]).
Proof. intros [->| ->]; repeat constructor. Qed.

(** A search passes over the server when the pattern starts with a slash
    and does not match where the slashes of the server are. *)
Lemma re_search_after_server {A} (here : text -> option A) scheme host rest :
  scheme = lit "http" \/ scheme = lit "https" ->
  Forall (fun c => is_slash c = false) host ->
  (forall c t, is_slash c = false -> here (c :: t) = None) ->
  here ("/"%char :: "/"%char :: host ++ rest) = None ->
  here ("/"%char :: host ++ rest) = None ->
  re_search here (scheme ++ lit "://" ++ host ++ rest) = re_search here rest.
Proof.
  intros Hs Hhost Hh H2 H1.
  change (scheme ++ lit "://" ++ host ++ rest)
    with (scheme ++ [":"%char] ++ "/"%char :: "/"%char :: host ++ rest).
  rewrite app_assoc.
  rewrite (re_search_skip here _ _ Hh (scheme_no_slash scheme Hs)).
  cbn [re_search]. rewrite H2, H1. apply re_search_skip; assumption.
Qed.

Lemma project_model_here_at_host host rest :
  Forall (fun c => is_slash c = false) host ->
  match rest with [] => True | c :: _ => is_hex c = false end ->
  project_model_here ("/"%char :: host ++ "/"%char :: rest) = None.
Proof.
  intros Hhost Hrest. unfold project_model_here.
  change (lit "/projects/") with ("/"%char :: lit "projects" ++ ["/"%char]).
  cbn [strip_prefix]. rewrite Ascii.eqb_refl.
  rewrite strip_prefix_segment by first [assumption | repeat constructor].
  destruct (decide (lit "projects" = host)); [|reflexivity].
  unfold hex_run. destruct rest as [|c rest]; [reflexivity|].
  cbn [span]. rewrite Hrest. reflexivity.
Qed.

Lemma id_here_at_host marker host rest :
  Forall (fun c => is_slash c = false) marker ->
  Forall (fun c => is_slash c = false) host ->
  match rest with [] => True | c :: _ => is_hex c = false end ->
  id_here ("/"%char :: marker ++ ["/"%char]) ("/"%char :: host ++ "/"%char :: rest)
  = None.
Proof.
  intros Hm Hhost Hrest. unfold id_here.
  cbn [strip_prefix]. rewrite Ascii.eqb_refl.
  rewrite strip_prefix_segment by assumption.
  destruct (decide (marker = host)); [|reflexivity].
  unfold hex_run. destruct rest as [|c rest]; [reflexivity|].
  cbn [span]. rewrite Hrest. reflexivity.
Qed.

Lemma hex_no_slash id :
  Forall (fun c => is_hex c = true) id -> Forall (fun c => is_slash c = false) id.
Proof. intros H. eapply Forall_impl; [exact H|]. apply is_hex_not_slash. Qed.

(** X13.  A locator made of [http] or [https], a host, [/projects/], a
    project identifier, [/models/] and a model identifier, the identifiers
    in lower-case hexadecimal, is parsed into the server, the project
    identifier and the model identifier. *)
Theorem parse_url_projects scheme host project_id model_id :
  scheme = lit "http" \/ scheme = lit "https" ->
  host <> [] -> Forall (fun c => is_slash c = false) host ->
  project_id <> [] -> Forall (fun c => is_hex c = true) project_id ->
  model_id <> [] -> Forall (fun c => is_hex c = true) model_id ->
  parse_url (scheme ++ lit "://" ++ host ++ lit "/projects/" ++ project_id ++
             lit "/models/" ++ model_id) =
  inr (scheme ++ lit "://" ++ host, Some project_id, model_id).
Proof.
  intros Hs Hne Hhost Hp1 Hp Hm1 Hm. unfold parse_url.
  assert (Hstrip : rstrip_slash
            (scheme ++ lit "://" ++ host ++ lit "/projects/" ++ project_id ++
             lit "/models/" ++ model_id) =
            scheme ++ lit "://" ++ host ++ lit "/projects/" ++ project_id ++
            lit "/models/" ++ model_id).
  { rewrite !app_assoc. apply rstrip_slash_keeps; [apply hex_no_slash, Hm|exact Hm1]. }
  rewrite Hstrip. cbv zeta.
  rewrite match_server_found by (assumption || exact eq_refl).
  rewrite (re_search_after_server project_model_here scheme host _ Hs Hhost).
  - assert (Hfound : project_model_here
              (lit "/projects/" ++ project_id ++ lit "/models/" ++ model_id) =
              Some (project_id, model_id)).
    { unfold project_model_here. rewrite strip_prefix_app.
      rewrite hex_run_app by (assumption || exact eq_refl).
      rewrite strip_prefix_app.
      rewrite <- (app_nil_r model_id) at 1.
      rewrite hex_run_app by (assumption || exact I). reflexivity. }
    destruct (lit "/projects/" ++ project_id ++ lit "/models/" ++ model_id)
      eqn:E; cbn [re_search]; rewrite Hfound; reflexivity.
  - apply project_model_here_slash.
  - reflexivity.
  - apply (project_model_here_at_host host
             (lit "projects/" ++ project_id ++ lit "/models/" ++ model_id));
      [exact Hhost|reflexivity].
Qed.

Lemma re_search_none_hex {A} (here : text -> option A) id :
  (forall c t, is_slash c = false -> here (c :: t) = None) ->
  here [] = None ->
  Forall (fun c => is_hex c = true) id ->
  re_search here id = None.
Proof.
  intros Hh H0 Hid. rewrite <- (app_nil_r id).
  rewrite (re_search_skip here id [] Hh (hex_no_slash id Hid)).
  simpl. rewrite H0. reflexivity.
Qed.

Lemma parse_url_streams_aux scheme host stream_id :
  scheme = lit "http" \/ scheme = lit "https" ->
  host <> [] -> Forall (fun c => is_slash c = false) host ->
  stream_id <> [] -> Forall (fun c => is_hex c = true) stream_id ->
  parse_url (scheme ++ lit "://" ++ host ++ lit "/streams/" ++ stream_id) =
  inr (scheme ++ lit "://" ++ host, None, stream_id).
Proof.
  intros Hs Hne Hhost Hi1 Hi. unfold parse_url.
  assert (Hstrip : rstrip_slash
            (scheme ++ lit "://" ++ host ++ lit "/streams/" ++ stream_id) =
            scheme ++ lit "://" ++ host ++ lit "/streams/" ++ stream_id).
  { rewrite !app_assoc. apply rstrip_slash_keeps; [apply hex_no_slash, Hi|exact Hi1]. }
  rewrite Hstrip. cbv zeta.
  rewrite match_server_found by (assumption || exact eq_refl).
  rewrite (re_search_after_server project_model_here scheme host _ Hs Hhost);
    [|apply project_model_here_slash|reflexivity
     |apply (project_model_here_at_host host (lit "streams/" ++ stream_id));
        [exact Hhost|reflexivity]].
  assert (Hnone : re_search project_model_here (lit "/streams/" ++ stream_id) = None).
  { change (lit "/streams/" ++ stream_id)
      with ("/"%char :: lit "streams" ++ "/"%char :: stream_id).
    cbn [re_search].
    change (project_model_here ("/"%char :: lit "streams" ++ "/"%char :: stream_id))
      with (@None (text * text)). cbv iota.
    rewrite (re_search_skip project_model_here (lit "streams") _
               project_model_here_slash) by repeat constructor.
    cbn [re_search].
    assert (H1 : project_model_here ("/"%char :: stream_id) = None).
    { destruct Hi as [|c id Hc Hi]; [reflexivity|].
      unfold project_model_here.
      change (lit "/projects/") with ("/"%char :: "p"%char :: lit "rojects/").
      cbn [strip_prefix]. rewrite Ascii.eqb_refl.
      destruct (Ascii.eqb_spec "p" c) as [<-|]; [|reflexivity].
      vm_compute in Hc. discriminate. }
    rewrite H1. apply re_search_none_hex;
      [apply project_model_here_slash|reflexivity|exact Hi]. }
  rewrite Hnone.
  change (lit "/streams/") with ("/"%char :: lit "streams" ++ ["/"%char]) at 1.
  rewrite (re_search_after_server _ scheme host _ Hs Hhost);
    [|apply id_here_slash|reflexivity
     |apply (id_here_at_host (lit "streams") host (lit "streams/" ++ stream_id));
        [repeat constructor|exact Hhost|reflexivity]].
  assert (Hfound : id_here ("/"%char :: lit "streams" ++ ["/"%char])
                     (lit "/streams/" ++ stream_id) = Some stream_id).
  { unfold id_here.
    change ("/"%char :: lit "streams" ++ ["/"%char]) with (lit "/streams/").
    rewrite strip_prefix_app. rewrite <- (app_nil_r stream_id) at 1.
    rewrite hex_run_app by (assumption || exact I). reflexivity. }
  change (lit "/streams/" ++ stream_id)
    with ("/"%char :: lit "streams/" ++ stream_id) at 1.
  cbn [re_search].
  change ("/"%char :: lit "streams/" ++ stream_id)
    with (lit "/streams/" ++ stream_id).
  rewrite Hfound. reflexivity.
Qed.

(** X14.  A locator of the legacy form, a server followed by [/streams/]
    and an identifier in lower-case hexadecimal, is parsed into the
    server, no project identifier, and the stream identifier as model
    identifier. *)
Theorem parse_url_streams scheme host stream_id :
  scheme = lit "http" \/ scheme = lit "https" ->
  host <> [] -> Forall (fun c => is_slash c = false) host ->
  stream_id <> [] -> Forall (fun c => is_hex c = true) stream_id ->
  parse_url (scheme ++ lit "://" ++ host ++ lit "/streams/" ++ stream_id) =
  inr (scheme ++ lit "://" ++ host, None, stream_id).
Proof. apply parse_url_streams_aux. Qed.

(** X15.  Slashes at the end of a locator change nothing. *)
Theorem parse_url_trailing_slashes url n :
  parse_url (url ++ repeat "/"%char n) = parse_url url.
Proof.
  unfold parse_url. replace (rstrip_slash (url ++ repeat "/"%char n))
    with (rstrip_slash url); [reflexivity|].
  induction n as [|n IH]; simpl repeat; [rewrite app_nil_r; reflexivity|].
  rewrite repeat_cons, app_assoc, rstrip_slash_snoc. exact IH.
Qed.

Lemma host_after_spec scheme r server :
  host_after scheme r = Some server ->
  exists host rest,
    r = lit "://" ++ host ++ rest /\ server = scheme ++ lit "://" ++ host /\
    host <> [] /\ Forall (fun c => is_slash c = false) host /\
    match rest with [] => True | c :: _ => is_slash c = true end.
Proof.
  unfold host_after. destruct (strip_prefix (lit "://") r) as [r'|] eqn:E;
    [|discriminate].
  apply strip_prefix_spec in E as ->.
  destruct (span (fun c => negb (is_slash c)) r') as [host rest] eqn:Es.
  apply span_spec in Es as (-> & Hhost & Hrest).
  destruct host as [|c host]; [discriminate|]. intros [= <-].
  exists (c :: host), rest. repeat split; try discriminate.
  - eapply Forall_impl; [exact Hhost|]. simpl. intros x Hx.
    destruct (is_slash x); [discriminate|reflexivity].
  - destruct rest as [|x rest]; [exact I|].
    destruct (is_slash x); [reflexivity|discriminate].
Qed.

Lemma match_server_spec url server :
  match_server url = Some server ->
  exists scheme host rest,
    (scheme = lit "http" \/ scheme = lit "https") /\
    url = scheme ++ lit "://" ++ host ++ rest /\
    server = scheme ++ lit "://" ++ host /\
    host <> [] /\ Forall (fun c => is_slash c = false) host /\
    match rest with [] => True | c :: _ => is_slash c = true end.
Proof.
  unfold match_server.
  destruct (strip_prefix (lit "http") url) as [r|] eqn:E; [|discriminate].
  apply strip_prefix_spec in E as ->.
  destruct (match r with
            | [] => None
            | c :: rest' =>
                if Ascii.eqb c "s" then host_after (lit "https") rest' else None
            end) as [server'|] eqn:Es.
  - intros [= <-]. destruct r as [|c r]; [discriminate|].
    destruct (Ascii.eqb_spec c "s") as [->|]; [|discriminate].
    apply host_after_spec in Es as (host & rest & -> & -> & H).
    exists (lit "https"), host, rest. tauto.
  - intros H. apply host_after_spec in H as (host & rest & -> & -> & H).
    exists (lit "http"), host, rest. tauto.
Qed.

(** X16.  A locator that starts with neither [http://] nor [https://]
    raises [AttributeError], whatever follows, and not the [ValueError] of
    line 50. *)
Theorem parse_url_without_scheme url :
  strip_prefix (lit "http://") url = None ->
  strip_prefix (lit "https://") url = None ->
  parse_url url = inl AttributeError.
Proof.
  intros H1 H2. unfold parse_url. cbv zeta.
  destruct (match_server (rstrip_slash url)) as [server|] eqn:E; [|reflexivity].
  exfalso. apply match_server_spec in E as (scheme & host & rest & Hs & Hu & _).
  destruct (rstrip_slash_prefix url) as (t & Ht). rewrite Hu in Ht.
  destruct Hs as [-> | ->].
  - change (lit "http" ++ lit "://" ++ host ++ rest)
      with (lit "http://" ++ host ++ rest) in Ht.
    rewrite <- app_assoc in Ht. rewrite Ht, strip_prefix_app in H1. discriminate.
  - change (lit "https" ++ lit "://" ++ host ++ rest)
      with (lit "https://" ++ host ++ rest) in Ht.
    rewrite <- app_assoc in Ht. rewrite Ht, strip_prefix_app in H2. discriminate.
Qed.

Lemma hex_run_spec s id rest :
  hex_run s = Some (id, rest) ->
  s = id ++ rest /\ id <> [] /\ Forall (fun c => is_hex c = true) id /\
  match rest with [] => True | c :: _ => is_hex c = false end.
Proof.
  unfold hex_run. destruct (span is_hex s) as [run r] eqn:E.
  apply span_spec in E as (-> & Hrun & Hr).
  destruct run as [|c run]; [discriminate|]. intros [= <- <-].
  repeat split; try assumption. discriminate.
Qed.

Lemma project_model_here_spec s project_id model_id :
  project_model_here s = Some (project_id, model_id) ->
  exists rest,
    s = lit "/projects/" ++ project_id ++ lit "/models/" ++ model_id ++ rest /\
    project_id <> [] /\ Forall (fun c => is_hex c = true) project_id /\
    model_id <> [] /\ Forall (fun c => is_hex c = true) model_id /\
    match rest with [] => True | c :: _ => is_hex c = false end.
Proof.
  unfold project_model_here.
  destruct (strip_prefix (lit "/projects/") s) as [r1|] eqn:E1; [|discriminate].
  apply strip_prefix_spec in E1 as ->.
  destruct (hex_run r1) as [[p r2]|] eqn:E2; [|discriminate].
  apply hex_run_spec in E2 as (-> & Hp1 & Hp & _).
  destruct (strip_prefix (lit "/models/") r2) as [r3|] eqn:E3; [|discriminate].
  apply strip_prefix_spec in E3 as ->.
  destruct (hex_run r3) as [[m r4]|] eqn:E4; [|discriminate].
  apply hex_run_spec in E4 as (-> & Hm1 & Hm & Hr).
  intros [= <- <-]. exists r4. tauto.
Qed.

Lemma id_here_spec marker s id :
  id_here marker s = Some id ->
  exists rest,
    s = marker ++ id ++ rest /\ id <> [] /\
    Forall (fun c => is_hex c = true) id /\
    match rest with [] => True | c :: _ => is_hex c = false end.
Proof.
  unfold id_here.
  destruct (strip_prefix marker s) as [r|] eqn:E1; [|discriminate].
  apply strip_prefix_spec in E1 as ->.
  destruct (hex_run r) as [[i r']|] eqn:E2; [|discriminate].
  apply hex_run_spec in E2 as (-> & H). intros [= <-]. exists r'. tauto.
Qed.

(** X17.  What [parse_url] returns is in the locator: the server is the
    scheme and the whole host with which the locator starts, the host
    ending where the locator ends or at its first slash; the identifiers
    are runs of lower-case hexadecimal digits, not empty, that follow
    [/projects/] and [/models/], or [/streams/], in the locator. *)
Theorem parse_url_sound url server project_id model_id :
  parse_url url = inr (server, project_id, model_id) ->
  (exists scheme host rest,
     (scheme = lit "http" \/ scheme = lit "https") /\
     server = scheme ++ lit "://" ++ host /\
     host <> [] /\ Forall (fun c => is_slash c = false) host /\
     rstrip_slash url = server ++ rest /\
     match rest with [] => True | c :: _ => is_slash c = true end) /\
  model_id <> [] /\ Forall (fun c => is_hex c = true) model_id /\
  match project_id with
  | Some p =>
      p <> [] /\ Forall (fun c => is_hex c = true) p /\
      exists before rest,
        rstrip_slash url =
        before ++ lit "/projects/" ++ p ++ lit "/models/" ++ model_id ++ rest
  | None =>
      exists before rest,
        rstrip_slash url = before ++ lit "/streams/" ++ model_id ++ rest
  end.
Proof.
  unfold parse_url. cbv zeta.
  destruct (match_server (rstrip_slash url)) as [srv|] eqn:Es; [|discriminate].
  apply match_server_spec in Es as (scheme & host & rest & Hs & Hu & -> & Hh).
  assert (Hserver : exists scheme0 host0 rest0,
             (scheme0 = lit "http" \/ scheme0 = lit "https") /\
             scheme ++ lit "://" ++ host = scheme0 ++ lit "://" ++ host0 /\
             host0 <> [] /\ Forall (fun c => is_slash c = false) host0 /\
             rstrip_slash url = (scheme ++ lit "://" ++ host) ++ rest0 /\
             match rest0 with [] => True | c :: _ => is_slash c = true end).
  { exists scheme, host, rest. rewrite Hu, <- !app_assoc. tauto. }
  destruct (re_search project_model_here (rstrip_slash url)) as [[p m]|] eqn:Ep.
  - intros [= <- <- <-].
    apply re_search_sound in Ep as (before & found & Hf & Ep).
    apply project_model_here_spec in Ep as (r & -> & Hp).
    split; [exact Hserver|]. split; [tauto|]. split; [tauto|].
    split; [tauto|]. split; [tauto|]. exists before, r. exact Hf.
  - destruct (re_search (id_here (lit "/streams/")) (rstrip_slash url))
      as [id|] eqn:Ei; [|discriminate].
    intros [= <- <- <-].
    apply re_search_sound in Ei as (before & found & Hf & Ei).
    apply id_here_spec in Ei as (r & -> & Hi).
    split; [exact Hserver|]. split; [tauto|]. split; [tauto|].
    exists before, r. exact Hf.
Qed.

Lemma parse_url_projects_witness :
  parse_url (lit "https" ++ lit "://" ++ lit "app.speckle.systems" ++
             lit "/projects/" ++ lit "080aa54b8c" ++
             lit "/models/" ++ lit "672e2108a2") =
  inr (lit "https" ++ lit "://" ++ lit "app.speckle.systems",
       Some (lit "080aa54b8c"), lit "672e2108a2").
Proof.
  apply (parse_url_projects (lit "https") (lit "app.speckle.systems")
           (lit "080aa54b8c") (lit "672e2108a2"));
    [right; reflexivity|discriminate|repeat constructor
    |discriminate|repeat constructor|discriminate|repeat constructor].
Defined.

Lemma parse_url_streams_witness :
  parse_url (lit "http" ++ lit "://" ++ lit "projects" ++
             lit "/streams/" ++ lit "3073b96e86") =
  inr (lit "http" ++ lit "://" ++ lit "projects", None, lit "3073b96e86").
Proof.
  apply (parse_url_streams (lit "http") (lit "projects") (lit "3073b96e86"));
    [left; reflexivity|discriminate|repeat constructor
    |discriminate|repeat constructor].
Defined.

Lemma parse_url_without_scheme_witness :
  parse_url (lit "app.speckle.systems/projects/080aa54b8c/models/672e2108a2") =
  inl AttributeError.
Proof.
  apply (parse_url_without_scheme
           (lit "app.speckle.systems/projects/080aa54b8c/models/672e2108a2"));
    reflexivity.
Defined.

Lemma parse_url_sound_witness :
  (exists scheme host rest,
     (scheme = lit "http" \/ scheme = lit "https") /\
     lit "https://speckle.xyz" = scheme ++ lit "://" ++ host /\
     host <> [] /\ Forall (fun c => is_slash c = false) host /\
     rstrip_slash (lit "https://speckle.xyz/streams/0d3cb7cb52/commits/ab//") =
     lit "https://speckle.xyz" ++ rest /\
     match rest with [] => True | c :: _ => is_slash c = true end) /\
  lit "0d3cb7cb52" <> [] /\ Forall (fun c => is_hex c = true) (lit "0d3cb7cb52") /\
  exists before rest,
    rstrip_slash (lit "https://speckle.xyz/streams/0d3cb7cb52/commits/ab//") =
    before ++ lit "/streams/" ++ lit "0d3cb7cb52" ++ rest.
Proof.
  apply (parse_url_sound
           (lit "https://speckle.xyz/streams/0d3cb7cb52/commits/ab//")
           (lit "https://speckle.xyz") None (lit "0d3cb7cb52")).
  vm_compute. reflexivity.
Defined.

(** X18.  [get_commit_id_from_preview_url] returns [None] when the model
    has no [preview_url] or a false one; it raises exactly when the
    [preview_url] is true and not a string, and what it raises then is
    [TypeError]; an identifier it returns is a run of lower-case
    hexadecimal digits, not empty and as long as it can be, that follows
    [/commits/] in the [preview_url]. *)
Theorem commit_id_is_in_preview_url model_data :
  (forall v, getattr_default model_data "preview_url" (VStr "") = v ->
             truthy v = false ->
             get_commit_id_from_preview_url model_data = inr None) /\
  (forall e, get_commit_id_from_preview_url model_data = inl e ->
             e = TypeError /\
             exists v, getattr model_data "preview_url" = Some v /\
                       truthy v = true /\ forall s, v <> VStr s) /\
  (forall v, getattr model_data "preview_url" = Some v ->
             truthy v = true -> (forall s, v <> VStr s) ->
             get_commit_id_from_preview_url model_data = inl TypeError) /\
  (forall id, get_commit_id_from_preview_url model_data = inr (Some id) ->
     exists s before rest,
       getattr model_data "preview_url" = Some (VStr s) /\
       lit s = before ++ lit "/commits/" ++ id ++ rest /\
       id <> [] /\ Forall (fun c => is_hex c = true) id /\
       match rest with [] => True | c :: _ => is_hex c = false end).
Proof.
  unfold get_commit_id_from_preview_url, getattr_default. cbv zeta.
  split; [|split; [|split]].
  - intros v -> Hv. rewrite Hv. reflexivity.
  - intros e. destruct (getattr model_data "preview_url") as [v|]; [|discriminate].
    destruct (truthy v) eqn:Hv; [|discriminate].
    destruct v; try (intros [= <-]; split; [reflexivity|];
                     eexists; split; [reflexivity|];
                     split; [exact Hv|discriminate]).
    discriminate.
  - intros v -> Hv Hn. rewrite Hv.
    destruct v as [| | |s| |]; try reflexivity.
    destruct (Hn s). reflexivity.
  - intros id. destruct (getattr model_data "preview_url") as [v|]; [|discriminate].
    destruct (truthy v); [|discriminate].
    destruct v as [| | |s| |]; try discriminate.
    intros [= H]. apply re_search_sound in H as (before & found & Hs & H).
    apply id_here_spec in H as (rest & -> & Hid).
    exists s, before, rest. tauto.
Qed.

Lemma commit_id_is_in_preview_url_witness :
  get_commit_id_from_preview_url (PyObj [] [("preview_url", VNone)]) = inr None /\
  (TypeError = TypeError /\
   exists v, getattr (PyObj [] [("preview_url", VInt 7)]) "preview_url" = Some v /\
             truthy v = true /\ forall s, v <> VStr s) /\
  get_commit_id_from_preview_url (PyObj [] [("preview_url", VList [VNone])]) =
    inl TypeError /\
  exists s before rest,
    getattr (PyObj [] [("preview_url",
                        VStr "https://x/preview/ab/commits/0c1d2e?size=1")])
      "preview_url" = Some (VStr s) /\
    lit s = before ++ lit "/commits/" ++ lit "0c1d2e" ++ rest /\
    lit "0c1d2e" <> [] /\ Forall (fun c => is_hex c = true) (lit "0c1d2e") /\
    match rest with [] => True | c :: _ => is_hex c = false end.
Proof.
  split; [|split; [|split]].
  - apply (proj1 (commit_id_is_in_preview_url (PyObj [] [("preview_url", VNone)]))
             VNone); reflexivity.
  - apply (proj1 (proj2 (commit_id_is_in_preview_url
                           (PyObj [] [("preview_url", VInt 7)])))).
    reflexivity.
  - apply (proj1 (proj2 (proj2 (commit_id_is_in_preview_url
                                  (PyObj [] [("preview_url", VList [VNone])]))))
             (VList [VNone])); [reflexivity|reflexivity|discriminate].
  - apply (proj2 (proj2 (proj2 (commit_id_is_in_preview_url
             (PyObj [] [("preview_url",
                         VStr "https://x/preview/ab/commits/0c1d2e?size=1")]))))).
    vm_compute. reflexivity.
Defined.

(** ** Retrieval *)

(** X19.  For a locator of the legacy form, [receive_data] makes the
    transport for the stream of the locator from the client as it is,
    raises what that raises, and otherwise returns [False]; either way the
    extractor is left as it was, nothing else is asked of the services and
    nothing is received.  [run] returns [None]. *)
Theorem legacy_locator_receives_nothing sv self scheme host stream_id :
  scheme = lit "http" \/ scheme = lit "https" ->
  host <> [] -> Forall (fun c => is_slash c = false) host ->
  stream_id <> [] -> Forall (fun c => is_hex c = true) stream_id ->
  url self = scheme ++ lit "://" ++ host ++ lit "/streams/" ++ stream_id ->
  receive_data sv self =
    (self, match server_transport sv (client self) stream_id with
           | inl e => inl e
           | inr _ => inr false
           end) /\
  run sv self = None.
Proof.
  intros Hs Hne Hhost Hi1 Hi Hu.
  assert (Hp : parse_url (url self) =
               inr (scheme ++ lit "://" ++ host, None, stream_id)).
  { rewrite Hu. apply parse_url_streams_aux; assumption. }
  assert (Hr : forall self0, url self0 = url self ->
            receive_data sv self0 =
            (self0, match server_transport sv (client self0) stream_id with
                    | inl e => inl e
                    | inr _ => inr false
                    end)).
  { intros self0 E. unfold receive_data. rewrite E, Hp.
    destruct (server_transport sv (client self0) stream_id); reflexivity. }
  split; [apply Hr; reflexivity|].
  unfold run, authenticate. rewrite Hp.
  destruct (token self) as [[|c t]|]; try reflexivity.
  destruct (speckle_client sv _); [reflexivity|].
  destruct (authenticate_with_token sv _ _); [reflexivity|].
  rewrite Hr by reflexivity.
  destruct (server_transport sv _ stream_id); reflexivity.
Qed.

Lemma legacy_locator_receives_nothing_witness :
  (receive_data Offline.services
     (init (lit "http" ++ lit "://" ++ lit "speckle.xyz" ++
            lit "/streams/" ++ lit "3073b96e86") (Some (lit "t")) None) =
   (init (lit "http" ++ lit "://" ++ lit "speckle.xyz" ++
          lit "/streams/" ++ lit "3073b96e86") (Some (lit "t")) None,
    inl ServiceError) /\
   run Offline.services
     (init (lit "http" ++ lit "://" ++ lit "speckle.xyz" ++
            lit "/streams/" ++ lit "3073b96e86") (Some (lit "t")) None) = None) /\
  (receive_data Offline.services
     {| url := lit "http" ++ lit "://" ++ lit "speckle.xyz" ++
               lit "/streams/" ++ lit "3073b96e86";
        token := Some (lit "t");
        client := Some (lit "http://speckle.xyz");
        received_data := None |} =
   ({| url := lit "http" ++ lit "://" ++ lit "speckle.xyz" ++
              lit "/streams/" ++ lit "3073b96e86";
       token := Some (lit "t");
       client := Some (lit "http://speckle.xyz");
       received_data := None |},
    inr false) /\
   run Offline.services
     {| url := lit "http" ++ lit "://" ++ lit "speckle.xyz" ++
               lit "/streams/" ++ lit "3073b96e86";
        token := Some (lit "t");
        client := Some (lit "http://speckle.xyz");
        received_data := None |} = None).
Proof.
  split.
  - apply (legacy_locator_receives_nothing Offline.services
             (init (lit "http" ++ lit "://" ++ lit "speckle.xyz" ++
                    lit "/streams/" ++ lit "3073b96e86") (Some (lit "t")) None)
             (lit "http") (lit "speckle.xyz") (lit "3073b96e86"));
      [left; reflexivity|discriminate|repeat constructor
      |discriminate|repeat constructor|reflexivity].
  - apply (legacy_locator_receives_nothing Offline.services
             {| url := lit "http" ++ lit "://" ++ lit "speckle.xyz" ++
                       lit "/streams/" ++ lit "3073b96e86";
                token := Some (lit "t");
                client := Some (lit "http://speckle.xyz");
                received_data := None |}
             (lit "http") (lit "speckle.xyz") (lit "3073b96e86"));
      [left; reflexivity|discriminate|repeat constructor
      |discriminate|repeat constructor|reflexivity].
Defined.

Lemma find_target_model_skip w before rest model_id :
  Forall (fun e => is_items e = false) before ->
  find_target_model w (before ++ rest) model_id =
  find_target_model w rest model_id.
Proof.
  induction 1 as [|e before He Hb IH]; simpl; [reflexivity|].
  destruct e as [key v|v]; [|exact IH].
  destruct v; try exact IH. simpl in He. rewrite He. exact IH.
Qed.

(** X20.  The model that [receive_data] looks for is searched in the
    first pair of [project.models] whose key is ['items'] and whose value
    is a list, and only there: the result is the first item of that list
    whose [id] is the model identifier, or nothing, whatever pairs come
    after. *)
Theorem first_items_list_decides w before key items after model_id :
  Forall (fun e => is_items e = false) before ->
  py_eq key (VStr "items") = true ->
  find_target_model w (before ++ Pair key (VList items) :: after) model_id =
  find (has_id w model_id) items.
Proof.
  intros Hb Hk. rewrite (find_target_model_skip w before _ model_id Hb).
  simpl. rewrite Hk. reflexivity.
Qed.

Lemma first_items_list_decides_witness :
  (find_target_model Offline.catalogue
     ([Pair (VStr "totalCount") (VInt 2); NotPair (VStr "cursor")] ++
      Pair (VStr "items") (VList [VRef 0%nat; VRef 1%nat; VRef 2%nat]) ::
      [Pair (VStr "items") (VList [VRef 3%nat])]) (lit "672e2108a2") =
   find (has_id Offline.catalogue (lit "672e2108a2"))
     [VRef 0%nat; VRef 1%nat; VRef 2%nat] /\
   find (has_id Offline.catalogue (lit "672e2108a2"))
     [VRef 0%nat; VRef 1%nat; VRef 2%nat] = Some (VRef 1%nat)) /\
  (find_target_model Offline.catalogue
     ([Pair (VStr "items") (VStr "none")] ++
      Pair (VStr "items") (VList [VRef 0%nat]) ::
      [Pair (VStr "items") (VList [VRef 3%nat])]) (lit "672e2108a2") =
   find (has_id Offline.catalogue (lit "672e2108a2")) [VRef 0%nat] /\
   find (has_id Offline.catalogue (lit "672e2108a2")) [VRef 0%nat] = None /\
   find (has_id Offline.catalogue (lit "672e2108a2")) [VRef 3%nat] =
     Some (VRef 3%nat)).
Proof.
  split; split.
  - apply (first_items_list_decides Offline.catalogue
             [Pair (VStr "totalCount") (VInt 2); NotPair (VStr "cursor")]
             (VStr "items") [VRef 0%nat; VRef 1%nat; VRef 2%nat]
             [Pair (VStr "items") (VList [VRef 3%nat])] (lit "672e2108a2"));
      [repeat constructor|reflexivity].
  - vm_compute. reflexivity.
  - apply (first_items_list_decides Offline.catalogue
             [Pair (VStr "items") (VStr "none")]
             (VStr "items") [VRef 0%nat]
             [Pair (VStr "items") (VList [VRef 3%nat])] (lit "672e2108a2"));
      [repeat constructor|reflexivity].
  - split; vm_compute; reflexivity.
Defined.

Lemma json_subscript_inr j k v :
  json_subscript j k = inr v <->
  exists fields, j = JObj fields /\ jassoc k fields = Some v.
Proof.
  split.
  - destruct j as [| | | | |fields]; simpl; try discriminate.
    destruct (jassoc k fields) as [v'|] eqn:E; [|discriminate].
    intros [= <-]. eauto.
  - intros (fields & -> & E). simpl. rewrite E. reflexivity.
Qed.

(** X21.  From the response to the query, [get_object_id_from_commit]
    returns a value other than [None] exactly when the status is 200 and
    the body has dictionaries along [data], [stream], [commit] down to a
    key [referencedObject] whose value is not [null]; that value is what
    it returns. *)
Theorem referenced_object_follows_the_path r v :
  (referenced_object r = inr v /\ v <> JNull) <->
  (status_code r = 200 /\
   v <> JNull /\
   exists data,
     body r = Some data /\
     json_path ["data"; "stream"; "commit"; "referencedObject"] data = Some v).
Proof.
  unfold referenced_object. split.
  - intros [H Hv]. revert H.
    destruct (Z.eqb_spec (status_code r) 200) as [E|];
      [|intros [= <-]; destruct Hv; reflexivity].
    destruct (body r) as [data|]; [|discriminate].
    destruct (json_contains "data" data) as [|[|]];
      try discriminate; try (intros [= <-]; destruct Hv; reflexivity).
    destruct (json_subscript data "data") as [|d] eqn:E1; [discriminate|].
    destruct (negb (json_truthy d));
      [intros [= <-]; destruct Hv; reflexivity|].
    destruct (json_contains "stream" d) as [|[|]];
      try discriminate; try (intros [= <-]; destruct Hv; reflexivity).
    destruct (json_subscript d "stream") as [|st] eqn:E2; [discriminate|].
    destruct (negb (json_truthy st));
      [intros [= <-]; destruct Hv; reflexivity|].
    destruct (json_contains "commit" st) as [|[|]];
      try discriminate; try (intros [= <-]; destruct Hv; reflexivity).
    destruct (json_subscript st "commit") as [|c] eqn:E3; [discriminate|].
    destruct (negb (json_truthy c));
      [intros [= <-]; destruct Hv; reflexivity|].
    intros E4. split; [exact E|]. split; [exact Hv|].
    exists data. split; [reflexivity|].
    apply json_subscript_inr in E1 as (f1 & -> & E1).
    apply json_subscript_inr in E2 as (f2 & -> & E2).
    apply json_subscript_inr in E3 as (f3 & -> & E3).
    apply json_subscript_inr in E4 as (f4 & -> & E4).
    simpl. rewrite E1, E2, E3, E4. reflexivity.
  - intros (E & Hv & data & Hb & Hp). split; [|exact Hv].
    rewrite E, Hb. simpl.
    simpl in Hp.
    destruct data as [| | | | |f1]; try discriminate.
    destruct (jassoc "data" f1) as [d|] eqn:E1; [|discriminate].
    destruct d as [| | | | |f2]; try discriminate.
    destruct (jassoc "stream" f2) as [st|] eqn:E2; [|discriminate].
    destruct st as [| | | | |f3]; try discriminate.
    destruct (jassoc "commit" f3) as [c|] eqn:E3; [|discriminate].
    destruct c as [| | | | |f4]; try discriminate.
    destruct (jassoc "referencedObject" f4) as [o|] eqn:E4; [|discriminate].
    injection Hp as <-.
    simpl. rewrite E1. simpl. rewrite E2. simpl. rewrite E3. simpl. rewrite E4.
    destruct f2; [discriminate|]. destruct f3; [discriminate|].
    destruct f4; [discriminate|]. reflexivity.
Qed.

Lemma referenced_object_follows_the_path_witness :
  referenced_object
    {| status_code := 200;
       body := Some (JObj [("data", JObj [("stream", JObj [("commit",
                 JObj [("referencedObject", JStr "f00d")])])])]) |} =
    inr (JStr "f00d") /\
  JStr "f00d" <> JNull.
Proof.
  apply (proj2 (referenced_object_follows_the_path
                  {| status_code := 200;
                     body := Some (JObj [("data", JObj [("stream", JObj [("commit",
                               JObj [("referencedObject", JStr "f00d")])])])]) |}
                  (JStr "f00d"))).
  split; [reflexivity|]. split; [discriminate|].
  eexists. split; reflexivity.
Defined.

(** A [null] under [referencedObject] is returned as it is, and is the
    [None] that a missing commit gives. *)
Lemma referenced_object_null :
  referenced_object
    {| status_code := 200;
       body := Some (JObj [("data", JObj [("stream", JObj [("commit",
                 JObj [("referencedObject", JNull)])])])]) |} = inr JNull /\
  referenced_object
    {| status_code := 200;
       body := Some (JObj [("data", JObj [("stream", JObj [("commit", JNull)])])]) |} =
    inr JNull.
Proof. split; reflexivity. Qed.

(** ** When a call returns *)

Section Returns.
Variable h : heap.

Lemma analyze_elements_invariant {S} (P : S -> Prop)
    (r : value -> S -> outcome S) o :
  (forall x s s', P s -> r x s = Ok s' -> P s') ->
  forall s s', P s -> analyze_elements r o s = Ok s' -> P s'.
Proof.
  intros Hr s s' Hs. unfold analyze_elements.
  destruct (getattr o "elements") as [els|]; [|intros [= <-]; exact Hs].
  destruct (truthy els); [|intros [= <-]; exact Hs].
  destruct (py_iter els) as [items|]; [|discriminate].
  apply (for_each_invariant P); [|exact Hs]. intros x t t' _. apply Hr.
Qed.

Lemma check_other_collections_invariant {S} (P : S -> Prop)
    (r : value -> S -> outcome S) o :
  (forall x s s', P s -> r x s = Ok s' -> P s') ->
  forall s s', P s -> check_other_collections h r o s = Ok s' -> P s'.
Proof.
  intros Hr s s' Hs. rewrite check_other_collections_items.
  apply (for_each_invariant P); [|exact Hs]. intros x t t' _. apply Hr.
Qed.

Lemma analyze_elements_Ok {S} (r : value -> S -> outcome S) o s s' :
  analyze_elements r o s = Ok s' -> elements_iterable o = true.
Proof.
  unfold analyze_elements, elements_iterable.
  destruct (getattr o "elements") as [els|]; [|reflexivity].
  destruct (truthy els); [|reflexivity].
  destruct (py_iter els); [reflexivity|discriminate].
Qed.

(** The tour returns only when [elements] could be iterated in every
    object it enters. *)
Lemma tour_rec_elements n M : forall d x t t',
  Forall (fun l => forall o, h !! l = Some o -> elements_iterable o = true) t ->
  tour_rec h n x t M d = Ok t' ->
  Forall (fun l => forall o, h !! l = Some o -> elements_iterable o = true) t'.
Proof.
  set (P := Forall (fun l => forall o, h !! l = Some o ->
                                       elements_iterable o = true)).
  induction n as [|n IH]; intros d x t t' Ht; simpl.
  - destruct (M <? d); [|discriminate]. intros [= <-]. exact Ht.
  - destruct (M <? d); [intros [= <-]; exact Ht|].
    unfold tour_body. destruct (get_dict h x) as [o|] eqn:Ex;
      [|intros [= <-]; exact Ht].
    destruct x as [| | | | |l]; try discriminate.
    change (h !! l = Some o) in Ex. simpl.
    destruct (analyze_elements _ o (t ++ [l])) as [t1| |] eqn:E1;
      simpl; try discriminate.
    intros E2.
    apply (check_other_collections_invariant P _ o
             (fun y s s' Hs => IH (d + 1) y s s' Hs) t1 t'); [|exact E2].
    apply (analyze_elements_invariant P _ o
             (fun y s s' Hs => IH (d + 1) y s s' Hs) (t ++ [l]) t1); [|exact E1].
    apply Forall_app. split; [exact Ht|]. constructor; [|constructor].
    intros o' Ho'. assert (o' = o) by congruence. subst o'.
    exact (analyze_elements_Ok _ o _ _ E1).
Qed.

Lemma extract_rec_total_reach n M : forall d x a,
  (forall (k : nat) l o, reach h k x l -> d + Z.of_nat k <= M ->
                         h !! l = Some o -> node_ok o = true) ->
  (Z.to_nat (M - d + 1) <= n)%nat ->
  exists a', extract_rec h n x a M d = Ok a'.
Proof.
  induction n as [|n IH]; intros d x a Hok Hn; simpl.
  - destruct (Z.ltb_spec M d); [eauto|lia].
  - destruct (Z.ltb_spec M d); [eauto|].
    set (a0 := match a with Some a1 => a1 | None => [] end).
    unfold extract_body. destruct (get_dict h x) as [o|] eqn:Ex; [|eauto].
    destruct x as [| | | | |l]; try discriminate.
    change (h !! l = Some o) in Ex.
    assert (Ho : node_ok o = true).
    { apply (Hok O l o); [econstructor; exact Ex|lia|exact Ex]. }
    apply andb_true_iff in Ho as [Hel Hty].
    assert (Hr : forall c s, child o c ->
               exists s', extract_rec h n c (Some s) M (d + 1) = Ok s').
    { intros c s Hc. apply IH; [|lia]. intros k l' o' Hr Hk Hl'.
      apply (Hok (S k) l' o'); [|lia|exact Hl'].
      exact (reach_step h k l o c l' Ex Hc Hr). }
    assert (Hcl : exists a1, classify o a0 = Ok a1).
    { unfold classify, record_instance. unfold type_hashable in Hty.
      destruct (ifc_type_of o) as [ty|]; [|eauto]. rewrite Hty. eauto. }
    destruct Hcl as (a1 & ->). simpl.
    assert (Hae : exists a2, analyze_elements
                    (fun x0 a' => extract_rec h n x0 (Some a') M (d + 1)) o a1 =
                  Ok a2).
    { unfold analyze_elements.
      destruct (getattr o "elements") as [els|] eqn:E1; [|eauto].
      destruct (truthy els) eqn:E2; [|eauto].
      unfold elements_iterable in Hel. rewrite E1, E2 in Hel. simpl in Hel.
      destruct (py_iter els) as [items|] eqn:E3; [|discriminate].
      apply for_each_total. intros c s Hc. apply Hr. left.
      exists els, items. tauto. }
    destruct Hae as (a2 & ->). simpl.
    rewrite check_other_collections_items. apply for_each_total.
    intros c s Hc. apply Hr. right.
    apply secondary_items_In in Hc as (name & items & H1 & H2 & H3 & _).
    exists name, items. tauto.
Qed.
End Returns.

(** X22.  A call started without a dictionary returns exactly when every
    object within [max_depth] recursive calls of the root can be handled:
    its [elements], when there and true, can be iterated, and its type,
    when the object is counted, can be a key.  Otherwise it raises. *)
Theorem returns_exactly_when_nodes_are_sound h data M :
  ((exists a', extract_ifc_types h data None M 0 = Ok a') <->
   (forall (k : nat) l o, reach h k data l -> Z.of_nat k <= M ->
                          h !! l = Some o -> node_ok o = true)) /\
  ((exists a', extract_ifc_types h data None M 0 = Ok a') \/
   (exists e, extract_ifc_types h data None M 0 = Raise e)).
Proof.
  split.
  - split.
    + intros (a' & E) k l o Hr Hk Hl.
      destruct (extract_tour h data None M 0 a' E) as (t & Et & Ea).
      assert (Hin : In l t).
      { apply (tour_reach h data M 0 t Et). exists k. split; [lia|exact Hr]. }
      unfold node_ok. apply andb_true_iff. split.
      * pose proof (tour_rec_elements h _ M 0 data [] t (Forall_nil_2 _) Et)
          as Hall.
        rewrite Forall_forall in Hall.
        exact (Hall l (proj2 (list_elem_of_In _ _) Hin) o Hl).
      * unfold type_hashable.
        destruct (ifc_type_of o) as [ty|] eqn:Hty; [|reflexivity].
        pose proof (aggregate_hashable h t [] a' Ea) as Hall.
        rewrite Forall_forall in Hall. apply Hall, list_elem_of_In.
        apply In_types_of. eauto.
    + intros Hok. apply extract_rec_total_reach; [|lia].
      intros k l o Hr Hk Hl. apply (Hok k l o Hr); [lia|exact Hl].
  - pose proof (extract_ifc_types_finishes h data None M 0) as Hf.
    destruct (extract_ifc_types h data None M 0) as [a'|e|]; eauto.
    contradiction.
Qed.

(** A single object as [elements] makes the call raise. *)
Lemma single_object_as_elements_raises :
  extract_ifc_types
    (list_to_map [(0%nat, PyObj [] [("elements", VRef 1%nat)]);
                  (1%nat, Samples.door)])
    (VRef 0%nat) None 10 0 = Raise NotIterable.
Proof. vm_compute. reflexivity. Qed.

(** With services that answer, a locator of the new form is received and
    [run] returns the dictionary of the traversal. *)
Lemma offline_run :
  run Offline.services
    (init (lit "https://app.speckle.systems/projects/080aa54b8c/models/672e2108a2")
       (Some (lit "t")) None) = Some Samples.returned.
Proof. vm_compute. reflexivity. Qed.

(** ** A chain of nested nodes *)

Lemma chain_lookup n i :
  (i <= n)%nat -> chain n !! i = Some (chain_node n i).
Proof.
  intros Hi. unfold chain. rewrite lookup_map_seq_0.
  change (map (chain_node n) (seq 0 (S n))) with (chain_node n <$> seq 0 (S n)).
  rewrite list_lookup_fmap, lookup_seq_lt by lia. reflexivity.
Qed.

Lemma chain_from n M k : forall i d a,
  (i + k = n)%nat -> d + Z.of_nat k <= M ->
  exists a',
    extract_ifc_types (chain n) (VRef i) (Some a) M d = Ok a' /\
    total_instances a' = total_instances a + 2 ^ (Z.of_nat k + 1) - 1.
Proof.
  induction k as [|k IH]; intros i d a Hi Hd;
    rewrite extract_ifc_types_eq; cbv zeta;
    (destruct (Z.ltb_spec M d); [lia|]);
    unfold extract_body, get_dict; rewrite chain_lookup by lia;
    (destruct (classify (chain_node n i) a) as [a1| |] eqn:Ec;
       [|vm_compute in Ec; discriminate..]);
    pose proof (classify_total_instances _ _ _ Ec) as Ht;
    change (ifc_type_of (chain_node n i)) with (Some (VStr "Wall")) in Ht;
    cbn [bind]; unfold analyze_elements, check_other_collections, getattr,
      chain_node; cbn [obj_dict obj_class].
  - assert (Hn : (i <? n)%nat = false) by (apply Nat.ltb_ge; lia).
    rewrite Hn. cbn. exists a1. split; [reflexivity|].
    rewrite Ht. change (2 ^ (Z.of_nat 0 + 1)) with 2. lia.
  - assert (Hn : (i <? n)%nat = true) by (apply Nat.ltb_lt; lia).
    rewrite Hn. cbn [assoc String.eqb Ascii.eqb Bool.eqb truthy py_iter for_each
                     bind startswith_underscore String.prefix negb visit_items].
    destruct (IH (S i) (d + 1) a1) as (a2 & -> & H2); [lia|lia|].
    cbn [bind]. unfold has_dict, get_dict. rewrite chain_lookup by lia.
    destruct (IH (S i) (d + 1) a2) as (a3 & -> & H3); [lia|lia|].
    cbn [bind]. exists a3. split; [reflexivity|].
    rewrite H3, H2, Ht.
    replace (Z.of_nat (S k) + 1) with (Z.succ (Z.of_nat k + 1)) by lia.
    rewrite Z.pow_succ_r by lia. lia.
Qed.

(** X23.  On a chain of [n + 1] nested walls, each the only element of
    the one before it, with [n] within [max_depth], the call returns and
    counts [2 ^ (n + 1) - 1] instances for the [n + 1] walls, since each
    level walks [elements] twice. *)
Theorem chain_is_counted_exponentially n M :
  Z.of_nat n <= M ->
  exists a',
    extract_ifc_types (chain n) (VRef 0%nat) None M 0 = Ok a' /\
    total_instances a' = 2 ^ (Z.of_nat n + 1) - 1.
Proof.
  intros Hn. destruct (chain_from n M n 0%nat 0 []) as (a' & E & Ht); [lia|lia|].
  exists a'. split; [|exact Ht].
  rewrite <- E. unfold extract_ifc_types.
  destruct (Z.to_nat (M - 0 + 1)); reflexivity.
Qed.

Lemma chain_is_counted_exponentially_witness :
  exists a',
    extract_ifc_types (chain 3) (VRef 0%nat) None 10 0 = Ok a' /\
    total_instances a' = 2 ^ (Z.of_nat 3 + 1) - 1.
Proof. apply (chain_is_counted_exponentially 3 10). lia. Defined.
